(** * multistatus: status aggregation and terminal redraw engine

    A shallow embedding of the Go package [multistatus] (types [WorkerState],
    [Worker], [WorkerSet]; methods [Done], [Fail], [Active], [New], [Add],
    [Print] and [print]) together with the properties of its specification.

    Pointers to [Worker] are addresses into a heap, the [sync.WaitGroup] is
    its integer counter, standard output is the list of writes made so far,
    and a Go panic is the [Panic] result of a small state-and-panic monad.
    The goroutines of a run (the caller's work units, the waiter spawned by
    [Print], the [select] loop of [Print]) are the actions of a labelled
    transition system whose schedule is an explicit list of actions.

    The embedding follows the source file in which [Print] and [print] ask
    whether standard output is a terminal. *)

From Stdlib Require Import ZArith Ascii String DecimalString List Lia Bool.
From stdpp Require Import base list strings.

Open Scope Z_scope.

(** * Part I: the embedding and the vocabulary of the properties *)

(** ** Data model *)

(** [type WorkerState int] with [Completed = iota], [Failed], [Pending]. *)
Definition WorkerState := Z.
Definition Completed : WorkerState := 0.
Definition Failed : WorkerState := 1.
Definition Pending : WorkerState := 2.

(** A [*Worker] is an address in the heap of allocated workers. *)
Abbreviation addr := nat.

(** [parent] is [true] for a pointer to the worker set of the world and
    [false] for [nil]. *)
Record Worker := mkWorker {
  State : WorkerState;
  Name : string;
  parent : bool
}.

(** The zero value of the struct: what [Worker{}] or [new(Worker)] gives. *)
Definition zeroWorker : Worker := mkWorker 0 EmptyString false.

(** [spin.Spinner] of the go-spin dependency: a sequence of frames and a
    position; only its [Next] method is used. *)
Record Spinner := mkSpinner {
  frames : list string;
  pos : nat
}.

(** Process memory and environment seen by the package: the heap of workers,
    the fields of the one [WorkerSet] ([Workers], [wg], [spinner]), the writes
    made to standard output, whether standard output currently is a terminal,
    and whether the context passed to [Print] has been cancelled. *)
Record World := mkWorld {
  heap : list Worker;
  Workers : list addr;
  wg : Z;
  spinner : Spinner;
  stdout : list string;
  isTerminal : bool;
  ctxDone : bool
}.

Definition set_heap (h : list Worker) (w : World) : World :=
  mkWorld h (Workers w) (wg w) (spinner w) (stdout w) (isTerminal w) (ctxDone w).
Definition set_Workers (l : list addr) (w : World) : World :=
  mkWorld (heap w) l (wg w) (spinner w) (stdout w) (isTerminal w) (ctxDone w).
Definition set_wg (n : Z) (w : World) : World :=
  mkWorld (heap w) (Workers w) n (spinner w) (stdout w) (isTerminal w) (ctxDone w).
Definition set_spinner (s : Spinner) (w : World) : World :=
  mkWorld (heap w) (Workers w) (wg w) s (stdout w) (isTerminal w) (ctxDone w).
Definition set_stdout (o : list string) (w : World) : World :=
  mkWorld (heap w) (Workers w) (wg w) (spinner w) o (isTerminal w) (ctxDone w).
Definition set_isTerminal (b : bool) (w : World) : World :=
  mkWorld (heap w) (Workers w) (wg w) (spinner w) (stdout w) b (ctxDone w).
Definition set_ctxDone (b : bool) (w : World) : World :=
  mkWorld (heap w) (Workers w) (wg w) (spinner w) (stdout w) (isTerminal w) b.

(** ** A state monad with panics *)

Inductive Result (A : Type) : Type :=
| Ok (a : A) (w : World)
| Panic (w : World).
Arguments Ok {A} a w.
Arguments Panic {A} w.

Definition M (A : Type) : Type := World -> Result A.

Definition ret {A} (a : A) : M A := fun w => Ok a w.

Definition bind {A B} (m : M A) (k : A -> M B) : M B :=
  fun w => match m w with
           | Ok a w' => k a w'
           | Panic w' => Panic w'
           end.

Definition get {A} (f : World -> A) : M A := fun w => Ok (f w) w.
Definition modify (f : World -> World) : M unit := fun w => Ok tt (f w).
Definition panic {A} : M A := fun w => Panic w.

Notation "x <- m ;; k" := (bind m (fun x => k))
  (at level 63, m at next level, right associativity).
Notation "m ;;; k" := (bind m (fun _ => k))
  (at level 63, right associativity).

(** The world a computation ends in, whether it returned or panicked. *)
Definition world_of {A} (r : Result A) : World :=
  match r with Ok _ w => w | Panic w => w end.

Definition panicked {A} (r : Result A) : bool :=
  match r with Ok _ _ => false | Panic _ => true end.

(** ** Library operations used by the package *)

(** [sync.WaitGroup.Add]: the counter is updated atomically, and a negative
    result panics after the update.  The counter here is an integer without
    the 32-bit width of the library's, and the library's panics for an [Add]
    that meets a [Wait] being released at zero are not modelled: statements
    about the absence of panics carry both as hypotheses. *)
Definition wg_Add (delta : Z) : M unit :=
  fun w => let w' := set_wg (wg w + delta) w in
           if wg w + delta <? 0 then Panic w' else Ok tt w'.

(** [sync.WaitGroup.Done] is [Add(-1)]. *)
Definition wg_Done : M unit := wg_Add (-1).

(** [strings.Repeat]. *)
Fixpoint Repeat (s : string) (n : nat) : string :=
  match n with
  | O => EmptyString
  | S n' => s +:+ Repeat s n'
  end.

(** [fmt.Print] and [fmt.Printf] on an already formatted string: one write. *)
Definition fmt_Print (s : string) : M unit :=
  modify (fun w => set_stdout (stdout w ++ [s]) w).

(** [terminal.IsTerminal(int(os.Stdout.Fd()))]: asks the environment. *)
Definition IsTerminal : M bool := get isTerminal.

(** [spin.Spinner.Next]: the frame at the position, then advance.  The
    spinner [spin.New()] makes has ten frames; with no frame at all the
    library would divide by zero, here the empty string stands for that. *)
Definition spinner_Next : M string :=
  fun w => let s := spinner w in
           let r := nth (Nat.modulo (pos s) (length (frames s))) (frames s) EmptyString in
           Ok r (set_spinner (mkSpinner (frames s) (S (pos s))) w).

(** Dereferencing a [*Worker]; an address that was never allocated plays the
    part of [nil]. *)
Definition deref (a : addr) : M Worker :=
  fun w => match heap w !! a with
           | Some v => Ok v w
           | None => Panic w
           end.

(** [&Worker{...}]: a fresh address holding the given value. *)
Definition new_Worker (v : Worker) : M addr :=
  fun w => Ok (length (heap w)) (set_heap (heap w ++ [v]) w).

Definition set_State (a : addr) (s : WorkerState) : M unit :=
  v <- deref a ;;
  modify (fun w => set_heap (<[a := mkWorker s (Name v) (parent v)]> (heap w)) w).

(** ** Terminal control sequences *)

Definition ESC : string := String "027"%char EmptyString.
Definition LF : string := String "010"%char EmptyString.

Definition cursor_up : string := ESC +:+ "[A".
Definition cursor_down : string := ESC +:+ "[B".
Definition clear_line : string := ESC +:+ "[2K".
Definition hide_cursor : string := ESC +:+ "[?25l".
Definition show_cursor : string := ESC +:+ "[?25h".

(** ** Worker *)

(** [func (w *Worker) Done()] *)
Definition Done (a : addr) : M unit :=
  set_State a Completed ;;;
  v <- deref a ;;
  if parent v then wg_Done else panic.

(** [func (w *Worker) Fail()] *)
Definition Fail (a : addr) : M unit :=
  set_State a Failed ;;;
  v <- deref a ;;
  if parent v then wg_Done else panic.

(** [func (w *Worker) Active() bool] *)
Definition Active (v : Worker) : bool := State v =? Pending.

(** ** WorkerSet *)

(** [func New() *WorkerSet], given the spinner [spin.New()] returns. *)
Definition New (sp : Spinner) (tty : bool) : World :=
  mkWorld [] [] 0 sp [] tty false.

(** [func (w *WorkerSet) Add(s string) *Worker] *)
Definition Add (s : string) : M addr :=
  wg_Add 1 ;;;
  worker <- new_Worker (mkWorker Pending s true) ;;
  ws <- get Workers ;;
  modify (set_Workers (ws ++ [worker])) ;;;
  ret worker.

(** The body of the [for _, v := range w.Workers] loop of [print], run over
    the slice the [range] clause evaluated. *)
Fixpoint print_range (vs : list addr) (failed completed inProgress : string) : M unit :=
  match vs with
  | [] => ret tt
  | a :: vs' =>
      v <- deref a ;;
      let p := inProgress in
      let p := if State v =? Completed then completed
               else if State v =? Failed then failed
               else p in
      fmt_Print ("  " +:+ p +:+ " " +:+ Name v +:+ LF) ;;;
      print_range vs' failed completed inProgress
  end.

(** [func (w *WorkerSet) print(end bool)] *)
Definition print (end_ : bool) : M unit :=
  let failed := "✗" in
  let completed := "✔" in
  let inProgress := "-" in
  isTerm <- IsTerminal ;;
  glyphs <-
    (if isTerm : bool then
       n <- get (fun w => length (Workers w)) ;;
       fmt_Print (Repeat LF n +:+ Repeat cursor_up n +:+
                  Repeat (cursor_down +:+ clear_line) n +:+ Repeat cursor_up n) ;;;
       let failed := ESC +:+ "[0;31m✗" +:+ ESC +:+ "[0m" in
       let completed := ESC +:+ "[0;32m✔" +:+ ESC +:+ "[0m" in
       inProgress <- spinner_Next ;;
       ret (failed, completed, inProgress)
     else ret (failed, completed, inProgress)) ;;
  let '(failed, completed, inProgress) := glyphs in
  vs <- get Workers ;;
  print_range vs failed completed inProgress ;;;
  if isTerm : bool then
    fmt_Print hide_cursor ;;;
    if end_ : bool then fmt_Print show_cursor
    else n <- get (fun w => length (Workers w)) ;;
         fmt_Print (Repeat cursor_up n)
  else ret tt.

(** ** The goroutines of a run *)

(** Where the goroutine that calls [Print] is: not yet in the call, at the
    [select] of the terminal branch, at the [<-done] of the other branch, or
    back in the caller. *)
Inductive MainPc := NotCalled | InLoop | Blocked | Returned.

(** Where the goroutine spawned by [Print] is: not spawned, in [w.wg.Wait()],
    at [done <- true], or finished. *)
Inductive WaiterPc := NotSpawned | Waiting | Sending | Finished.

Record Config := mkConfig {
  world : World;
  mainPc : MainPc;
  waiterPc : WaiterPc;
  crashed : bool
}.

(** The atomic actions of a schedule: each runs to its end before the next
    one starts (module [Interleaving] takes the calls of [Add], [Done] and
    [Fail] apart, statement by statement).  [AAdd], [ADone] and [AFail] are
    calls made by the caller's goroutines, [ACancel] cancels the context,
    [ATty] is the environment changing what standard output is attached to,
    [APrint] is the entry of [Print] up to its terminal check, [AWait] is
    [w.wg.Wait()] returning in the waiter, and [ASelCtx], [ASelTick] and
    [ARecvDone] are the three communications [Print] can wake on, each with
    the call of [print] that follows it.  A schedule of these actions is a
    run in which the calls of [Add] do not overlap one another, and in which
    [w.wg.Wait()] returns on finding the counter at zero. *)
Inductive Action :=
| AAdd (s : string)
| ADone (a : addr)
| AFail (a : addr)
| ACancel
| ATty (b : bool)
| APrint
| AWait
| ASelCtx
| ASelTick
| ARecvDone.

(** The configuration after a computation of the package ran in it: an
    unrecovered panic takes the process down. *)
Definition after {A} (r : Result A) (m : MainPc) (t : WaiterPc) : Config :=
  mkConfig (world_of r) m t (panicked r).

Definition step (a : Action) (c : Config) : option Config :=
  if crashed c then None else
  let w := world c in
  match a with
  | AAdd s => Some (after (Add s w) (mainPc c) (waiterPc c))
  | ADone x => Some (after (Done x w) (mainPc c) (waiterPc c))
  | AFail x => Some (after (Fail x w) (mainPc c) (waiterPc c))
  | ACancel => Some (mkConfig (set_ctxDone true w) (mainPc c) (waiterPc c) false)
  | ATty b => Some (mkConfig (set_isTerminal b w) (mainPc c) (waiterPc c) false)
  | APrint =>
      match mainPc c with
      | NotCalled =>
          Some (after (IsTerminal w)
                      (if isTerminal w then InLoop else Blocked) Waiting)
      | _ => None
      end
  | AWait =>
      match waiterPc c with
      | Waiting => if wg w =? 0 then Some (mkConfig w (mainPc c) Sending false)
                   else None
      | _ => None
      end
  | ASelCtx =>
      match mainPc c with
      | InLoop => if ctxDone w then Some (after (print true w) Returned (waiterPc c))
                  else None
      | _ => None
      end
  | ASelTick =>
      match mainPc c with
      | InLoop => Some (after (print false w) InLoop (waiterPc c))
      | _ => None
      end
  | ARecvDone =>
      match mainPc c, waiterPc c with
      | InLoop, Sending | Blocked, Sending =>
          Some (after (print true w) Returned Finished)
      | _, _ => None
      end
  end.

Fixpoint run (tr : list Action) (c : Config) : option Config :=
  match tr with
  | [] => Some c
  | a :: tr' => match step a c with
                | Some c' => run tr' c'
                | None => None
                end
  end.

(** A fresh process: [New()] was called, [Print] was not. *)
Definition start (sp : Spinner) (tty : bool) : Config :=
  mkConfig (New sp tty) NotCalled NotSpawned false.

(** [spin.New()]: the default frames of go-spin, at position zero. *)
Definition Box1 : Spinner :=
  mkSpinner ["⠋"; "⠙"; "⠹"; "⠸"; "⠼"; "⠴"; "⠦"; "⠧"; "⠇"; "⠏"] 0.

(** The actions in which [Print] calls [print]. *)
Definition is_repaint (a : Action) : bool :=
  match a with
  | ASelCtx | ASelTick | ARecvDone => true
  | _ => false
  end.

(** ** Reading a world *)

(** The workers the slice [w.Workers] points to, in slice order. *)
Definition tasks (w : World) : list Worker :=
  omap (fun a => heap w !! a) (Workers w).

(** Every pointer in the slice is to an allocated worker. *)
Definition wf (w : World) : Prop :=
  Forall (fun a => is_Some (heap w !! a)) (Workers w).

(** The glyph chosen by the [if]/[else if] of the loop body of [print]. *)
Definition glyph (failed completed inProgress : string) (s : WorkerState) : string :=
  if s =? Completed then completed
  else if s =? Failed then failed
  else inProgress.

(** The format [  %s %s\n] of the loop body. *)
Definition line (p name : string) : string :=
  "  " +:+ p +:+ " " +:+ name +:+ LF.

(** The write that wipes the section, for a slice of length [n]. *)
Definition wipe (n : nat) : string :=
  Repeat LF n +:+ Repeat cursor_up n +:+
  Repeat (cursor_down +:+ clear_line) n +:+ Repeat cursor_up n.

Definition green_check : string := ESC +:+ "[0;32m✔" +:+ ESC +:+ "[0m".
Definition red_cross : string := ESC +:+ "[0;31m✗" +:+ ESC +:+ "[0m".

(** The frame [Next] returns in a world. *)
Definition frame (w : World) : string :=
  nth (Nat.modulo (pos (spinner w)) (length (frames (spinner w))))
      (frames (spinner w)) EmptyString.

(** The glyph of a state in a repaint made in world [w]. *)
Definition glyph_in (w : World) (s : WorkerState) : string :=
  if isTerminal w then glyph red_cross green_check (frame w) s
  else glyph "✗" "✔" "-" s.

(** The task lines of a repaint made in world [w]. *)
Definition task_lines (w : World) : list string :=
  map (fun v => line (glyph_in w (State v)) (Name v)) (tasks w).

(** All the writes of a repaint made in world [w]. *)
Definition repaint (end_ : bool) (w : World) : list string :=
  if isTerminal w then
    wipe (length (Workers w)) :: task_lines w ++
    [hide_cursor; if end_ then show_cursor else Repeat cursor_up (length (Workers w))]
  else task_lines w.

(** The world after a repaint made in world [w]. *)
Definition repainted (end_ : bool) (w : World) : World :=
  set_stdout (stdout w ++ repaint end_ w)
    (if isTerminal w
     then set_spinner (mkSpinner (frames (spinner w)) (S (pos (spinner w)))) w
     else w).

(** ** The effect of a call, in closed form *)

Ltac unfold_m :=
  unfold Done, Fail, Add, set_State, new_Worker, deref, wg_Done, wg_Add, fmt_Print,
    IsTerminal, spinner_Next, bind, ret, get, modify, panic in *.

(** What a terminal mark does, for [Done] ([s = Completed]) and [Fail]
    ([s = Failed]) alike. *)
Definition marked (s : WorkerState) (a : addr) (v : Worker) (w : World) : World :=
  set_wg (wg w - 1) (set_heap (<[a := mkWorker s (Name v) (parent v)]> (heap w)) w).

(** The world after [Add] returned. *)
Definition added_to (s : string) (w : World) : World :=
  mkWorld (heap w ++ [mkWorker Pending s true]) (Workers w ++ [length (heap w)])
          (wg w + 1) (spinner w) (stdout w) (isTerminal w) (ctxDone w).

(** ** Schedules and their invariant *)

(** The names given to [Add] in a schedule, in schedule order. *)
Fixpoint added (tr : list Action) : list string :=
  match tr with
  | [] => []
  | AAdd s :: tr' => s :: added tr'
  | _ :: tr' => added tr'
  end.

(** The slice holds the allocated workers in allocation order, and the
    counter of a live process is not negative. *)
Record Inv (c : Config) : Prop := mkInv {
  inv_slice : Workers (world c) = seq 0 (length (heap (world c)));
  inv_wg : crashed c = false -> 0 <= wg (world c)
}.

(** ** The place of a line in the output *)

(** The index, among all writes to standard output, of the line a repaint
    made in world [w] writes for the [i]-th element of the slice. *)
Definition line_index (w : World) (i : nat) : nat :=
  (length (stdout w) + (if isTerminal w then 1 else 0) + i)%nat.

(** ** What a string of control sequences asks of a terminal

    Line feed, cursor up ([ESC[A]), cursor down ([ESC[B]) and erase line
    ([ESC[2K]) read off a string byte by byte: the row of the cursor relative
    to where it started, and the rows erased so far, in the order they were
    erased.  Clamping at the screen edges and scrolling are the terminal's
    and are not part of it. *)

Inductive Parse := Text | Escape | Csi (params : string).

Record Term := mkTerm {
  row : Z;
  erased : list Z;
  parse : Parse
}.

Definition feed (ch : ascii) (t : Term) : Term :=
  match parse t with
  | Text =>
      if Ascii.eqb ch "010" then mkTerm (row t + 1) (erased t) Text
      else if Ascii.eqb ch "027" then mkTerm (row t) (erased t) Escape
      else t
  | Escape =>
      if Ascii.eqb ch "[" then mkTerm (row t) (erased t) (Csi EmptyString)
      else mkTerm (row t) (erased t) Text
  | Csi ps =>
      if (64 <=? nat_of_ascii ch)%nat && (nat_of_ascii ch <=? 126)%nat then
        if Ascii.eqb ch "A" && String.eqb ps EmptyString
        then mkTerm (row t - 1) (erased t) Text
        else if Ascii.eqb ch "B" && String.eqb ps EmptyString
        then mkTerm (row t + 1) (erased t) Text
        else if Ascii.eqb ch "K" && String.eqb ps "2"
        then mkTerm (row t) (erased t ++ [row t]) Text
        else mkTerm (row t) (erased t) Text
      else mkTerm (row t) (erased t) (Csi (ps +:+ String ch EmptyString))
  end.

Fixpoint replay (s : string) (t : Term) : Term :=
  match s with
  | EmptyString => t
  | String ch s' => replay s' (feed ch t)
  end.

(** The rows [r+1], ..., [r+n]. *)
Definition rows_below (r : Z) (n : nat) : list Z :=
  map (fun k => r + Z.of_nat k) (seq 1 n).

(** ** A worker that did not come from [Add] *)

(** A set whose slice was extended by hand with a pointer to [Worker{}]. *)
Definition zero_world : World :=
  mkWorld [zeroWorker] [0%nat] 0 Box1 [] false false.

(** ** What a step leaves alone, and the mode of a call *)

(** What a mark leaves alone in a configuration. *)
Definition same_but_marks (c c' : Config) : Prop :=
  mainPc c' = mainPc c /\ waiterPc c' = waiterPc c /\
  Workers (world c') = Workers (world c) /\
  stdout (world c') = stdout (world c) /\
  isTerminal (world c') = isTerminal (world c) /\
  ctxDone (world c') = ctxDone (world c) /\
  spinner (world c') = spinner (world c).

(** The environment keeps standard output attached to the same kind of
    file throughout a schedule. *)
Definition tty_ok (b : bool) (a : Action) : bool :=
  match a with ATty b' => Bool.eqb b b' | _ => true end.

Definition tty_const (b : bool) (tr : list Action) : bool := forallb (tty_ok b) tr.

(** The mode [Print] runs in agrees with the environment as long as the
    environment does not change. *)
Definition mode_ok (b : bool) (c : Config) : Prop :=
  isTerminal (world c) = b /\
  (mainPc c = InLoop -> b = true) /\ (mainPc c = Blocked -> b = false).

(** ** Silence off a terminal *)


(** ** The way a call waits *)

Definition any_action (a : Action) : bool := true.

(** Once chosen, the way [Print] waits does not change. *)
Definition strategy (m : MainPc) (c : Config) : Prop :=
  mainPc c = Returned \/ mainPc c = m.

(** ** Quiet schedules *)

(** Nothing happens around the call: no task is added, the context is not
    cancelled, the timer does not elapse, standard output stays what it is. *)
Definition idle (a : Action) : bool :=
  match a with
  | AAdd _ | ACancel | ASelTick | ATty _ => false
  | _ => true
  end.

(** The number of repaints a schedule makes. *)
Fixpoint repaints (tr : list Action) : nat :=
  match tr with
  | [] => 0
  | a :: tr' => (if is_repaint a then 1 else 0) + repaints tr'
  end.

(** ** Schedules that keep to the protocol of the wait group *)

(** The number of workers of a heap that are [Active]. *)
Fixpoint pending_count (h : list Worker) : nat :=
  match h with
  | [] => 0
  | v :: h' => (if Active v then 1 else 0) + pending_count h'
  end.

(** A schedule in which the caller keeps to the protocol of the wait group:
    no worker is marked twice, and no task is added once the waiter has seen
    the counter at zero. *)
Fixpoint disciplined_from (done : list addr) (waited : bool) (tr : list Action) : bool :=
  match tr with
  | [] => true
  | AAdd _ :: tr' => negb waited && disciplined_from done waited tr'
  | ADone a :: tr' | AFail a :: tr' =>
      negb (existsb (Nat.eqb a) done) && disciplined_from (a :: done) waited tr'
  | AWait :: tr' => disciplined_from done true tr'
  | _ :: tr' => disciplined_from done waited tr'
  end.

Definition disciplined (tr : list Action) : bool := disciplined_from [] false tr.

(** What a disciplined schedule maintains: marked workers are completed or
    failed, the others are pending, the counter is the number of pending
    workers, and none is pending once the waiter has seen zero. *)
Record Kept (done : list addr) (waited : bool)
            (h : list Worker) (g : Z) (p : WaiterPc) : Prop := mkKept {
  kept_state : forall a v, h !! a = Some v ->
    parent v = true /\
    if existsb (Nat.eqb a) done
    then State v = Completed \/ State v = Failed
    else State v = Pending;
  kept_wg : g = Z.of_nat (pending_count h);
  kept_waited : waited = true -> pending_count h = 0%nat;
  kept_sending : p = Sending -> waited = true;
  kept_done : forall a, existsb (Nat.eqb a) done = true -> (a < length h)%nat
}.

(** ** Goroutines that overlap

    [Add], [Done] and [Fail] statement by statement: each goroutine is at one
    statement of one call, a schedule names the goroutine that runs its next
    statement, and the statements of different goroutines interleave.  The
    operations of the wait group are single steps (the library makes them
    atomic); the assignment [w.Workers = append(w.Workers, worker)] is a read
    of the slice followed by a write. *)

Module Interleaving.

(** The statement a goroutine is at: in [Add], before [w.wg.Add(1)], before
    the allocation of the worker, before the read of [w.Workers], before the
    write of the appended slice, at [return worker]; in [Done] or [Fail],
    before the assignment of [w.State], before [w.parent.wg.Done()], and
    after the call. *)
Inductive Pc :=
| AtWgAdd (s : string)
| AtNew (s : string)
| AtLoad (worker : addr)
| AtStore (worker : addr) (ws : list addr)
| AtReturn (worker : addr)
| AtSetState (a : addr) (s : WorkerState)
| AtWgDone (a : addr)
| AtEnd.

(** The goroutine that calls [Add(s)], and the one that calls [Done] or
    [Fail] on a worker. *)
Definition call_Add (s : string) : Pc := AtWgAdd s.
Definition call_Done (a : addr) : Pc := AtSetState a Completed.
Definition call_Fail (a : addr) : Pc := AtSetState a Failed.

(** The next statement of a goroutine. *)
Definition stmt (t : Pc) : M Pc :=
  match t with
  | AtWgAdd s => wg_Add 1 ;;; ret (AtNew s)
  | AtNew s => worker <- new_Worker (mkWorker Pending s true) ;; ret (AtLoad worker)
  | AtLoad worker => ws <- get Workers ;; ret (AtStore worker ws)
  | AtStore worker ws => modify (set_Workers (ws ++ [worker])) ;;; ret (AtReturn worker)
  | AtReturn worker => ret (AtReturn worker)
  | AtSetState a s => set_State a s ;;; ret (AtWgDone a)
  | AtWgDone a => v <- deref a ;; if parent v then wg_Done ;;; ret AtEnd else panic
  | AtEnd => ret AtEnd
  end.

(** A schedule run over a pool of goroutines: each entry lets the goroutine
    of that index run one statement; an index outside the pool is skipped. *)
Fixpoint interleave (sch : list nat) (pool : list Pc) : M (list Pc) :=
  match sch with
  | [] => ret pool
  | i :: sch' =>
      match pool !! i with
      | None => interleave sch' pool
      | Some t => t' <- stmt t ;; interleave sch' (<[i := t']> pool)
      end
  end.

(** What a goroutine has added to the counter so far. *)
Definition counted (t : Pc) : Z :=
  match t with
  | AtWgAdd _ | AtSetState _ _ | AtWgDone _ => 0
  | AtNew _ | AtLoad _ | AtStore _ _ | AtReturn _ => 1
  | AtEnd => -1
  end.

Fixpoint counted_all (pool : list Pc) : Z :=
  match pool with
  | [] => 0
  | t :: pool' => counted t + counted_all pool'
  end.

(** The schedule in which the goroutines [first], [first+1], ... run one
    after the other, four statements each. *)
Definition serial (first n : nat) : list nat :=
  flat_map (fun i => [i; i; i; i]) (seq first n).

(** The calls of [Add] made one after the other by a single goroutine. *)
Fixpoint Adds (names : list string) : M (list addr) :=
  match names with
  | [] => ret []
  | s :: names' => a <- Add s ;; l <- Adds names' ;; ret (a :: l)
  end.

End Interleaving.

(** ** Counting the calls of a schedule *)

(** The number of calls of [Done] and [Fail] in a schedule. *)
Fixpoint marks (tr : list Action) : nat :=
  match tr with
  | [] => 0
  | ADone _ :: tr' | AFail _ :: tr' => S (marks tr')
  | _ :: tr' => marks tr'
  end.

(** A schedule in which every mark is on a handle [Add] has already returned
    ([n] handles so far) and no handle is marked twice. *)
Fixpoint orderly_from (n : nat) (done : list addr) (tr : list Action) : bool :=
  match tr with
  | [] => true
  | AAdd _ :: tr' => orderly_from (S n) done tr'
  | ADone a :: tr' | AFail a :: tr' =>
      (a <? n)%nat && negb (existsb (Nat.eqb a) done) &&
      orderly_from n (a :: done) tr'
  | _ :: tr' => orderly_from n done tr'
  end.

Definition orderly (tr : list Action) : bool := orderly_from 0 [] tr.



(** [Print] is running: the call was entered and has not returned. *)
Definition printing (c : Config) : Prop :=
  mainPc c = InLoop \/ mainPc c = Blocked.

(** The waiter goroutine exists exactly while or after [Print] runs, and is
    still there (waiting or sending) while [Print] runs. *)
Definition waiter_ok (c : Config) : Prop :=
  (mainPc c = NotCalled -> waiterPc c = NotSpawned) /\
  (printing c -> waiterPc c = Waiting \/ waiterPc c = Sending).

(** ** The writes of one repaint, and the bytes in them *)

(** What one call of [print] adds to standard output. *)
Definition written (end_ : bool) (w : World) : list string :=
  drop (length (stdout w)) (stdout (world_of (print end_ w))).

(** A sequence of writes replayed on a terminal, one after the other. *)
Definition replay_all (ws : list string) (t : Term) : Term :=
  fold_left (fun t s => replay s t) ws t.

(** A string that holds neither a line feed nor an escape byte. *)
Fixpoint clean (s : string) : bool :=
  match s with
  | EmptyString => true
  | String ch s' =>
      negb (Ascii.eqb ch "010") && negb (Ascii.eqb ch "027") && clean s'
  end.

(** A string that holds no escape byte. *)
Fixpoint no_esc (s : string) : bool :=
  match s with
  | EmptyString => true
  | String ch s' => negb (Ascii.eqb ch "027") && no_esc s'
  end.

(** The call of [Done] ([failed = false]) or [Fail] ([failed = true]) on a
    handle, as an action. *)
Definition mark_of (failed : bool) (a : addr) : Action :=
  if failed then AFail a else ADone a.

(** ** The copy of the package that does not ask about the terminal

    The second source file of the package has the same types and the same
    [Done], [Fail], [Active], [New] and [Add]; its [Print] is the [select]
    loop alone and its [print] is the terminal branch alone. *)

Module NoTerminalCheck.

(** [func (w *WorkerSet) print(end bool)] *)
Definition print (end_ : bool) : M unit :=
  n <- get (fun w => length (Workers w)) ;;
  fmt_Print (Repeat LF n +:+ Repeat cursor_up n +:+
             Repeat (cursor_down +:+ clear_line) n +:+ Repeat cursor_up n) ;;;
  let failed := ESC +:+ "[0;31m✗" +:+ ESC +:+ "[0m" in
  let completed := ESC +:+ "[0;32m✔" +:+ ESC +:+ "[0m" in
  inProgress <- spinner_Next ;;
  vs <- get Workers ;;
  print_range vs failed completed inProgress ;;;
  fmt_Print hide_cursor ;;;
  if end_ : bool then fmt_Print show_cursor
  else n <- get (fun w => length (Workers w)) ;;
       fmt_Print (Repeat cursor_up n).

(** The goroutines of a run with [func (w *WorkerSet) Print(ctx)] of this
    file: the entry of [Print] goes to the [select] loop whatever standard
    output is, and the three cases call this file's [print]. *)
Definition step (a : Action) (c : Config) : option Config :=
  if crashed c then None else
  let w := world c in
  match a with
  | AAdd s => Some (after (Add s w) (mainPc c) (waiterPc c))
  | ADone x => Some (after (Done x w) (mainPc c) (waiterPc c))
  | AFail x => Some (after (Fail x w) (mainPc c) (waiterPc c))
  | ACancel => Some (mkConfig (set_ctxDone true w) (mainPc c) (waiterPc c) false)
  | ATty b => Some (mkConfig (set_isTerminal b w) (mainPc c) (waiterPc c) false)
  | APrint =>
      match mainPc c with
      | NotCalled => Some (mkConfig w InLoop Waiting false)
      | _ => None
      end
  | AWait =>
      match waiterPc c with
      | Waiting => if wg w =? 0 then Some (mkConfig w (mainPc c) Sending false)
                   else None
      | _ => None
      end
  | ASelCtx =>
      match mainPc c with
      | InLoop => if ctxDone w then Some (after (print true w) Returned (waiterPc c))
                  else None
      | _ => None
      end
  | ASelTick =>
      match mainPc c with
      | InLoop => Some (after (print false w) InLoop (waiterPc c))
      | _ => None
      end
  | ARecvDone =>
      match mainPc c, waiterPc c with
      | InLoop, Sending => Some (after (print true w) Returned Finished)
      | _, _ => None
      end
  end.

Fixpoint run (tr : list Action) (c : Config) : option Config :=
  match tr with
  | [] => Some c
  | a :: tr' => match step a c with
                | Some c' => run tr' c'
                | None => None
                end
  end.

End NoTerminalCheck.

(** A configuration with standard output attached to something else. *)
Definition with_tty (b : bool) (c : Config) : Config :=
  mkConfig (set_isTerminal b (world c)) (mainPc c) (waiterPc c) (crashed c).

(** The environment does not touch standard output. *)
Definition no_tty (a : Action) : bool :=
  match a with ATty _ => false | _ => true end.

(** ** The example program

    [main] of the example: a loop that adds the ten tasks [Task #0] to
    [Task #9] and starts, right after each [Add], a goroutine that sleeps and
    then calls [Fail] or [Done] on the handle it was given, once; then the
    context and the signal handler, which cancels the context on an
    interrupt; then [Print].  The sleeps, the random choice between [Fail]
    and [Done] and the interrupt are the schedule's. *)

Module Example.

(** [fmt.Sprintf("Task #%d", i)] *)
Definition task_name (i : nat) : string :=
  "Task #" +:+ NilEmpty.string_of_uint (Nat.to_uint i).

(** The schedules [main] and its goroutines can produce, read off the order
    of the program: [i] is the loop variable ([i] calls of [Add] made),
    [called] tells whether [ws.Print(ctx)] was reached, [done] holds the
    handles whose goroutine has made its call. *)
Fixpoint main_from (i : nat) (called : bool) (done : list addr)
         (tr : list Action) : bool :=
  match tr with
  | [] => true
  | AAdd s :: tr' =>
      negb called && (i <? 10)%nat && String.eqb s (task_name i) &&
      main_from (S i) called done tr'
  | ADone a :: tr' | AFail a :: tr' =>
      (a <? i)%nat && negb (existsb (Nat.eqb a) done) &&
      main_from i called (a :: done) tr'
  | ACancel :: tr' => (i =? 10)%nat && main_from i called done tr'
  | ATty _ :: tr' => main_from i called done tr'
  | APrint :: tr' => negb called && (i =? 10)%nat && main_from i true done tr'
  | AWait :: tr' | ASelCtx :: tr' | ASelTick :: tr' | ARecvDone :: tr' =>
      called && main_from i called done tr'
  end.

Definition main_schedule (tr : list Action) : bool := main_from 0 false [] tr.

End Example.

(** * Part II: lemmas and theorems *)

(** ** Basic facts *)

Lemma repainted_frame (end_ : bool) (w : World) :
  heap (repainted end_ w) = heap w /\
  Workers (repainted end_ w) = Workers w /\
  wg (repainted end_ w) = wg w /\
  isTerminal (repainted end_ w) = isTerminal w /\
  ctxDone (repainted end_ w) = ctxDone w /\
  stdout (repainted end_ w) = stdout w ++ repaint end_ w.
Proof.
  unfold repainted. destruct (isTerminal w) eqn:Ht; simpl; rewrite ?Ht; auto 10.
Qed.

Lemma print_range_ok (vs : list addr) (f c p : string) (w : World) :
  Forall (fun a => is_Some (heap w !! a)) vs ->
  print_range vs f c p w =
  Ok tt (set_stdout
           (stdout w ++ map (fun v => line (glyph f c p (State v)) (Name v))
                            (omap (fun a => heap w !! a) vs)) w).
Proof.
  revert w. induction vs as [|a vs IH]; intros w Hall.
  - simpl. unfold ret, set_stdout. rewrite app_nil_r. by destruct w.
  - inversion Hall as [|? ? [v Hv] Hrest]; subst.
    simpl. unfold bind at 1. unfold deref. rewrite Hv.
    unfold bind at 1. unfold fmt_Print, modify.
    rewrite IH by (simpl; exact Hrest).
    simpl. f_equal. unfold set_stdout. simpl.
    rewrite <- app_assoc. reflexivity.
Qed.

(** On a well-formed world [print] returns, and its effect on the world is
    [repainted]. *)
Lemma print_spec (end_ : bool) (w : World) :
  wf w -> print end_ w = Ok tt (repainted end_ w).
Proof.
  intros Hwf. unfold print, repainted, repaint, task_lines, tasks, glyph_in.
  unfold bind at 1. unfold IsTerminal, get.
  destruct (isTerminal w) eqn:Htty.
  - unfold bind at 1. unfold bind at 1. unfold get.
    unfold bind at 1. unfold fmt_Print, modify.
    unfold bind at 1. unfold spinner_Next. unfold ret.
    unfold bind at 1. unfold get. simpl Workers.
    unfold bind at 1.
    rewrite print_range_ok by (simpl; exact Hwf).
    simpl. unfold bind, fmt_Print, modify, get. simpl.
    destruct end_; simpl; f_equal; unfold set_stdout, set_spinner; simpl;
      rewrite Htty; f_equal; rewrite <- !app_assoc; simpl; reflexivity.
  - unfold ret. unfold bind at 1. unfold bind at 1. unfold get.
    unfold bind at 1.
    rewrite print_range_ok by exact Hwf.
    f_equal.
Qed.

Lemma set_State_eq (a : addr) (s : WorkerState) (w : World) :
  set_State a s w =
  match heap w !! a with
  | Some v => Ok tt (set_heap (<[a := mkWorker s (Name v) (parent v)]> (heap w)) w)
  | None => Panic w
  end.
Proof.
  unfold_m. destruct (heap w !! a); reflexivity.
Qed.

Lemma Done_eq (a : addr) (w : World) :
  Done a w =
  match heap w !! a with
  | None => Panic w
  | Some v =>
      if parent v then
        if wg w - 1 <? 0 then Panic (marked Completed a v w)
        else Ok tt (marked Completed a v w)
      else Panic (set_heap (<[a := mkWorker Completed (Name v) (parent v)]> (heap w)) w)
  end.
Proof.
  unfold_m. destruct (heap w !! a) as [[st nm pr]|] eqn:Hv; [|reflexivity].
  simpl. rewrite list_lookup_insert_eq by (eapply lookup_lt_Some; eauto).
  destruct pr; [|reflexivity].
  unfold marked. simpl. change (wg w + -1) with (wg w - 1).
  destruct (wg w - 1 <? 0); reflexivity.
Qed.

Lemma Fail_eq (a : addr) (w : World) :
  Fail a w =
  match heap w !! a with
  | None => Panic w
  | Some v =>
      if parent v then
        if wg w - 1 <? 0 then Panic (marked Failed a v w)
        else Ok tt (marked Failed a v w)
      else Panic (set_heap (<[a := mkWorker Failed (Name v) (parent v)]> (heap w)) w)
  end.
Proof.
  unfold_m. destruct (heap w !! a) as [[st nm pr]|] eqn:Hv; [|reflexivity].
  simpl. rewrite list_lookup_insert_eq by (eapply lookup_lt_Some; eauto).
  destruct pr; [|reflexivity].
  unfold marked. simpl. change (wg w + -1) with (wg w - 1).
  destruct (wg w - 1 <? 0); reflexivity.
Qed.

Lemma Add_eq (s : string) (w : World) :
  Add s w = if wg w + 1 <? 0 then Panic (set_wg (wg w + 1) w)
            else Ok (length (heap w)) (added_to s w).
Proof.
  unfold_m. destruct (wg w + 1 <? 0); reflexivity.
Qed.

Lemma omap_lookup_seq_app {A} (h t : list A) :
  omap (fun a => (h ++ t) !! a) (seq 0 (length h)) = h.
Proof.
  revert t. induction h as [|x h IH] using rev_ind; intros t; [reflexivity|].
  rewrite length_app. simpl length. rewrite Nat.add_1_r, seq_S. simpl.
  rewrite omap_app, <- app_assoc. simpl.
  rewrite IH, list_lookup_middle by reflexivity. reflexivity.
Qed.

Lemma omap_lookup_seq {A} (h : list A) :
  omap (fun a => h !! a) (seq 0 (length h)) = h.
Proof.
  pose proof (omap_lookup_seq_app h []) as H. by rewrite app_nil_r in H.
Qed.

(** ** Invariants of a run *)

Lemma added_app (tr1 tr2 : list Action) :
  added (tr1 ++ tr2) = added tr1 ++ added tr2.
Proof.
  induction tr1 as [|a tr1 IH]; [reflexivity|].
  destruct a; simpl; rewrite ?IH; reflexivity.
Qed.

Lemma Inv_wf (c : Config) : Inv c -> wf (world c).
Proof.
  intros [Hs _]. unfold wf. rewrite Hs. apply Forall_forall.
  intros a Ha. apply lookup_lt_is_Some. apply elem_of_seq in Ha. lia.
Qed.

Lemma Inv_tasks (c : Config) : Inv c -> tasks (world c) = heap (world c).
Proof.
  intros [Hs _]. unfold tasks. rewrite Hs. apply omap_lookup_seq.
Qed.

Lemma Name_insert (h : list Worker) (a : addr) (v : Worker) (s : WorkerState) (p : bool) :
  h !! a = Some v ->
  map Name (<[a := mkWorker s (Name v) p]> h) = map Name h.
Proof.
  intros Hv. change (map Name) with (fmap (M:=list) Name).
  rewrite list_fmap_insert. apply list_insert_id.
  rewrite list_lookup_fmap, Hv. reflexivity.
Qed.

Lemma Inv_start (sp : Spinner) (tty : bool) : Inv (start sp tty).
Proof. split; simpl; [reflexivity | lia]. Qed.

(** What one mark leaves alone. *)
Lemma mark_frame (m : addr -> M unit) (s : WorkerState) (a : addr) (w : World) :
  (m = Done /\ s = Completed) \/ (m = Fail /\ s = Failed) ->
  let w' := world_of (m a w) in
  Workers w' = Workers w /\ length (heap w') = length (heap w) /\
  map Name (heap w') = map Name (heap w) /\ stdout w' = stdout w /\
  isTerminal w' = isTerminal w /\ ctxDone w' = ctxDone w /\
  spinner w' = spinner w /\
  (panicked (m a w) = false -> wg w' = wg w - 1 /\ 0 <= wg w').
Proof.
  intros Hm. assert (m a w = match heap w !! a with
    | None => Panic w
    | Some v => if parent v then
                  if wg w - 1 <? 0 then Panic (marked s a v w) else Ok tt (marked s a v w)
                else Panic (set_heap (<[a := mkWorker s (Name v) (parent v)]> (heap w)) w)
    end) as ->.
  { destruct Hm as [[-> ->]|[-> ->]]; [apply Done_eq | apply Fail_eq]. }
  destruct (heap w !! a) as [v|] eqn:Hv.
  - destruct (parent v); [destruct (wg w - 1 <? 0) eqn:Hneg|];
      cbn [world_of panicked marked set_wg set_heap heap Workers wg spinner
           stdout isTerminal ctxDone];
      rewrite length_insert, Name_insert by exact Hv;
      repeat split; try discriminate; try reflexivity.
    apply Z.ltb_ge in Hneg. lia.
  - simpl. repeat split; discriminate.
Qed.

Lemma step_Inv (a : Action) (c c' : Config) :
  step a c = Some c' -> Inv c ->
  Inv c' /\
  map Name (heap (world c')) = map Name (heap (world c)) ++ added [a].
Proof.
  unfold step. destruct (crashed c) eqn:Hlive; [discriminate|].
  intros Hstep HI. pose proof (Inv_wf c HI) as Hwf.
  destruct HI as [Hs Hwg]. specialize (Hwg Hlive).
  destruct a; simpl added; rewrite ?app_nil_r.
  - (* Add *)
    injection Hstep as <-. rewrite Add_eq.
    destruct (wg (world c) + 1 <? 0) eqn:Hneg; [apply Z.ltb_lt in Hneg; lia|].
    simpl. split; [split; simpl|].
    + rewrite Hs, length_app. simpl. rewrite Nat.add_1_r, seq_S. reflexivity.
    + lia.
    + rewrite map_app. reflexivity.
  - injection Hstep as <-.
    destruct (mark_frame Done Completed a (world c)) as (H1 & H2 & H3 & _ & _ & _ & _ & H4);
      [left; tauto|].
    simpl. split; [split; simpl|exact H3].
    + rewrite H1, H2. exact Hs.
    + intros Hp. apply H4 in Hp. lia.
  - injection Hstep as <-.
    destruct (mark_frame Fail Failed a (world c)) as (H1 & H2 & H3 & _ & _ & _ & _ & H4);
      [right; tauto|].
    simpl. split; [split; simpl|exact H3].
    + rewrite H1, H2. exact Hs.
    + intros Hp. apply H4 in Hp. lia.
  - injection Hstep as <-. simpl. split; [split; simpl; auto|reflexivity].
  - injection Hstep as <-. simpl. split; [split; simpl; auto|reflexivity].
  - destruct (mainPc c); try discriminate. injection Hstep as <-.
    simpl. split; [split; simpl; auto|reflexivity].
  - destruct (waiterPc c); try discriminate.
    destruct (wg (world c) =? 0); [|discriminate]. injection Hstep as <-.
    simpl. split; [split; simpl; auto|reflexivity].
  - destruct (mainPc c); try discriminate.
    destruct (ctxDone (world c)); [|discriminate]. injection Hstep as <-.
    rewrite print_spec by exact Hwf. simpl.
    split; [split; simpl|]; destruct (isTerminal (world c)); simpl; auto.
  - destruct (mainPc c); try discriminate. injection Hstep as <-.
    rewrite print_spec by exact Hwf. simpl.
    split; [split; simpl|]; destruct (isTerminal (world c)); simpl; auto.
  - assert (c' = after (print true (world c)) Returned Finished) as ->.
    { destruct (mainPc c), (waiterPc c); try discriminate; congruence. }
    rewrite print_spec by exact Hwf. simpl.
    split; [split; simpl|]; destruct (isTerminal (world c)); simpl; auto.
Qed.

Lemma run_app (tr1 tr2 : list Action) (c : Config) :
  run (tr1 ++ tr2) c =
  match run tr1 c with Some c1 => run tr2 c1 | None => None end.
Proof.
  revert c. induction tr1 as [|a tr1 IH]; intros c; simpl; [reflexivity|].
  destruct (step a c); [apply IH | reflexivity].
Qed.

Lemma run_Inv (tr : list Action) (c c' : Config) :
  run tr c = Some c' -> Inv c ->
  Inv c' /\
  map Name (heap (world c')) = map Name (heap (world c)) ++ added tr.
Proof.
  revert c. induction tr as [|a tr IH]; intros c Hrun HI; simpl in Hrun.
  - injection Hrun as <-. simpl. rewrite app_nil_r. auto.
  - destruct (step a c) as [c1|] eqn:Hstep; [|discriminate].
    destruct (step_Inv a c c1 Hstep HI) as [HI1 Hn1].
    destruct (IH c1 Hrun HI1) as [HI' Hn'].
    split; [exact HI'|]. rewrite Hn', Hn1, <- app_assoc.
    change (a :: tr) with ([a] ++ tr). rewrite added_app. reflexivity.
Qed.

(** ** Where a repaint writes what *)

Lemma tasks_lookup (w : World) (i : nat) (a : addr) (v : Worker) :
  wf w -> Workers w !! i = Some a -> heap w !! a = Some v ->
  tasks w !! i = Some v.
Proof.
  unfold wf, tasks. generalize (Workers w) as vs. intros vs.
  revert i. induction vs as [|b vs IH]; intros i Hall Hi Hv; [discriminate|].
  inversion Hall as [|? ? [u Hu] Hrest]; subst. simpl. rewrite Hu. simpl.
  destruct i as [|i]; simpl in *.
  - injection Hi as ->. congruence.
  - eapply IH; eauto.
Qed.

Lemma tasks_length (w : World) : wf w -> length (tasks w) = length (Workers w).
Proof.
  unfold wf, tasks. generalize (Workers w) as vs. intros vs.
  induction vs as [|b vs IH]; intros Hall; [reflexivity|].
  inversion Hall as [|? ? [u Hu] Hrest]; subst. simpl. rewrite Hu. simpl.
  f_equal. auto.
Qed.

Lemma task_lines_length (w : World) :
  wf w -> length (task_lines w) = length (Workers w).
Proof.
  intros Hwf. unfold task_lines. rewrite length_map. by apply tasks_length.
Qed.

Lemma print_line_at (end_ : bool) (w : World) (i : nat) (a : addr) (v : Worker) :
  wf w -> Workers w !! i = Some a -> heap w !! a = Some v ->
  stdout (world_of (print end_ w)) !! line_index w i =
  Some (line (glyph_in w (State v)) (Name v)).
Proof.
  intros Hwf Hi Hv. rewrite print_spec by exact Hwf.
  pose proof (tasks_lookup w i a v Hwf Hi Hv) as Ht.
  assert (task_lines w !! i = Some (line (glyph_in w (State v)) (Name v))) as Hl.
  { unfold task_lines. change (map ?f ?l) with (f <$> l).
    rewrite list_lookup_fmap, Ht. reflexivity. }
  unfold line_index, repainted, repaint. simpl.
  destruct (isTerminal w); simpl.
  - rewrite lookup_app_r by lia.
    replace (length (stdout w) + 1 + i - length (stdout w))%nat with (S i) by lia.
    simpl. rewrite lookup_app_l by (eapply lookup_lt_Some; eauto). exact Hl.
  - rewrite lookup_app_r by lia.
    replace (length (stdout w) + 0 + i - length (stdout w))%nat with i by lia.
    exact Hl.
Qed.

(** ** Replaying the erase phase *)

Lemma replay_app (s1 s2 : string) (t : Term) :
  replay (s1 +:+ s2) t = replay s2 (replay s1 t).
Proof.
  revert t. induction s1 as [|ch s1 IH]; intros t; simpl; [reflexivity|apply IH].
Qed.

Lemma replay_LF1 (r : Z) (e : list Z) :
  replay LF (mkTerm r e Text) = mkTerm (r + 1) e Text.
Proof. reflexivity. Qed.

Lemma replay_up1 (r : Z) (e : list Z) :
  replay cursor_up (mkTerm r e Text) = mkTerm (r - 1) e Text.
Proof. reflexivity. Qed.

Lemma replay_down_clear1 (r : Z) (e : list Z) :
  replay (cursor_down +:+ clear_line) (mkTerm r e Text) =
  mkTerm (r + 1) (e ++ [r + 1]) Text.
Proof. reflexivity. Qed.

Lemma replay_LF (n : nat) (r : Z) (e : list Z) :
  replay (Repeat LF n) (mkTerm r e Text) = mkTerm (r + Z.of_nat n) e Text.
Proof.
  revert r. induction n as [|n IH]; intros r.
  - simpl. f_equal. lia.
  - cbn [Repeat]. rewrite replay_app, replay_LF1, IH. f_equal. lia.
Qed.

Lemma replay_up (n : nat) (r : Z) (e : list Z) :
  replay (Repeat cursor_up n) (mkTerm r e Text) = mkTerm (r - Z.of_nat n) e Text.
Proof.
  revert r. induction n as [|n IH]; intros r.
  - simpl. f_equal. lia.
  - cbn [Repeat]. rewrite replay_app, replay_up1, IH. f_equal. lia.
Qed.

Lemma rows_below_S (r : Z) (n : nat) :
  rows_below r (S n) = (r + 1) :: rows_below (r + 1) n.
Proof.
  unfold rows_below. simpl. f_equal.
  rewrite <- seq_shift, map_map. apply map_ext. intros k. lia.
Qed.

Lemma replay_down_clear (n : nat) (r : Z) (e : list Z) :
  replay (Repeat (cursor_down +:+ clear_line) n) (mkTerm r e Text) =
  mkTerm (r + Z.of_nat n) (e ++ rows_below r n) Text.
Proof.
  revert r e. induction n as [|n IH]; intros r e.
  - simpl. rewrite app_nil_r. f_equal. lia.
  - cbn [Repeat]. rewrite replay_app, replay_down_clear1, IH.
    rewrite rows_below_S, <- app_assoc. simpl. f_equal. lia.
Qed.

(** The write that wipes the section erases the [n] rows below the row the
    cursor is on and brings the cursor back to that row. *)
Lemma replay_wipe (n : nat) (r : Z) (e : list Z) :
  replay (wipe n) (mkTerm r e Text) = mkTerm r (e ++ rows_below r n) Text.
Proof.
  unfold wipe. rewrite !replay_app, replay_LF, replay_up, replay_down_clear, replay_up.
  replace (r + Z.of_nat n - Z.of_nat n) with r by lia.
  f_equal. lia.
Qed.

(** ** Terminal marks *)

Lemma mark_effect (m : addr -> M unit) (s : WorkerState) (a : addr) (v : Worker) (w : World) :
  (m = Done /\ s = Completed) \/ (m = Fail /\ s = Failed) ->
  heap w !! a = Some v -> parent v = true ->
  heap (world_of (m a w)) !! a = Some (mkWorker s (Name v) true) /\
  wg (world_of (m a w)) = wg w - 1 /\
  panicked (m a w) = (wg w - 1 <? 0).
Proof.
  intros Hm Hv Hp.
  assert (m a w = if wg w - 1 <? 0 then Panic (marked s a v w)
                  else Ok tt (marked s a v w)) as ->.
  { destruct Hm as [[-> ->]|[-> ->]]; [rewrite Done_eq | rewrite Fail_eq];
      rewrite Hv, Hp; reflexivity. }
  assert (heap (marked s a v w) !! a = Some (mkWorker s (Name v) true)) as Hh.
  { unfold marked. simpl. rewrite Hp.
    apply list_lookup_insert_eq. eapply lookup_lt_Some; eauto. }
  destruct (wg w - 1 <? 0); simpl; auto.
Qed.

(** C9: [Done] and [Fail] do not look at the state the worker is in: each
    call overwrites [State] with its own constant and takes one off the
    counter of the wait group, so a second mark on the same worker leaves the
    state of the last call and a counter two lower, with no saturation at
    zero (the call that makes the counter negative panics after the
    update). *)
Theorem marks_overwrite_and_decrement (a : addr) (v : Worker) (w : World) :
  heap w !! a = Some v -> parent v = true ->
  (heap (world_of (Done a w)) !! a = Some (mkWorker Completed (Name v) true) /\
   wg (world_of (Done a w)) = wg w - 1 /\
   panicked (Done a w) = (wg w - 1 <? 0)) /\
  (heap (world_of (Fail a w)) !! a = Some (mkWorker Failed (Name v) true) /\
   wg (world_of (Fail a w)) = wg w - 1 /\
   panicked (Fail a w) = (wg w - 1 <? 0)) /\
  (heap (world_of (Done a (world_of (Done a w)))) !! a =
     Some (mkWorker Completed (Name v) true) /\
   wg (world_of (Done a (world_of (Done a w)))) = wg w - 2) /\
  (heap (world_of (Fail a (world_of (Done a w)))) !! a =
     Some (mkWorker Failed (Name v) true) /\
   wg (world_of (Fail a (world_of (Done a w)))) = wg w - 2) /\
  (heap (world_of (Done a (world_of (Fail a w)))) !! a =
     Some (mkWorker Completed (Name v) true) /\
   wg (world_of (Done a (world_of (Fail a w)))) = wg w - 2).
Proof.
  intros Hv Hp.
  destruct (mark_effect Done Completed a v w) as (HD & HDw & HDp); auto.
  destruct (mark_effect Fail Failed a v w) as (HF & HFw & HFp); auto.
  destruct (mark_effect Done Completed a _ _ (or_introl (conj eq_refl eq_refl)) HD eq_refl)
    as (HDD & HDDw & _).
  destruct (mark_effect Fail Failed a _ _ (or_intror (conj eq_refl eq_refl)) HD eq_refl)
    as (HDF & HDFw & _).
  destruct (mark_effect Done Completed a _ _ (or_introl (conj eq_refl eq_refl)) HF eq_refl)
    as (HFD & HFDw & _).
  simpl in *. repeat split; auto; lia.
Qed.

(** Two workers added, the first marked twice: the counter reaches zero with
    the second worker still pending, and a third mark panics at minus one. *)
Lemma marks_overwrite_and_decrement_witness :
  let w := world_of (Add "b" (world_of (Add "a" (New Box1 true)))) in
  wg w = 2 /\
  wg (world_of (Fail 0%nat (world_of (Done 0%nat w)))) = 0 /\
  State <$> heap (world_of (Fail 0%nat (world_of (Done 0%nat w)))) !! 1%nat = Some Pending.
Proof.
  pose proof (marks_overwrite_and_decrement 0%nat (mkWorker Pending "a" true)
    (world_of (Add "b" (world_of (Add "a" (New Box1 true)))))
    ltac:(vm_compute; reflexivity) ltac:(vm_compute; reflexivity))
    as (_ & _ & _ & [_ H] & _).
  split; [vm_compute; reflexivity|].
  split; [vm_compute in H; vm_compute; exact H | vm_compute; reflexivity].
Defined.

(** ** The zero value of a worker *)

(** C10: [Completed] is the zero value of [WorkerState] ([Completed = 0],
    [Failed = 1], [Pending = 2]), so a zero-initialised worker that did not
    come from [Add] is not [Active] and, once in the slice, is painted with
    the success glyph; the worker [Add] creates starts [Pending]. *)
Theorem zero_worker_is_completed
    (end_ : bool) (w : World) (i : nat) (a : addr) (s : string) :
  wf w -> Workers w !! i = Some a -> heap w !! a = Some zeroWorker ->
  0 <= wg w ->
  (Completed = 0 /\ Failed = 1 /\ Pending = 2) /\
  State zeroWorker = Completed /\
  Active zeroWorker = false /\
  stdout (world_of (print end_ w)) !! line_index w i =
    Some (line (if isTerminal w then green_check else "✔") EmptyString) /\
  exists a' w', Add s w = Ok a' w' /\
    heap w' !! a' = Some (mkWorker Pending s true) /\
    Active (mkWorker Pending s true) = true.
Proof.
  intros Hwf Hi Hv Hwg. repeat split.
  - rewrite (print_line_at end_ w i a zeroWorker Hwf Hi Hv).
    unfold glyph_in. destruct (isTerminal w); reflexivity.
  - exists (length (heap w)), (added_to s w). rewrite Add_eq.
    destruct (wg w + 1 <? 0) eqn:Hneg; [apply Z.ltb_lt in Hneg; lia|].
    repeat split. simpl. apply list_lookup_middle. reflexivity.
Qed.

Lemma zero_worker_is_completed_witness :
  stdout (world_of (print true zero_world)) !! 0%nat =
    Some (line "✔" EmptyString) /\
  exists a' w', Add "t" zero_world = Ok a' w' /\
    heap w' !! a' = Some (mkWorker Pending "t" true) /\
    Active (mkWorker Pending "t" true) = true.
Proof.
  assert (wf zero_world) as Hwf.
  { unfold wf, zero_world. simpl. repeat constructor. by eexists. }
  pose proof (zero_worker_is_completed true zero_world 0%nat 0%nat "t"
                Hwf ltac:(vm_compute; reflexivity) ltac:(vm_compute; reflexivity)
                ltac:(simpl; lia))
    as (_ & _ & _ & Hline & Hadd).
  split; [exact Hline | exact Hadd].
Defined.

(** ** Order of the lines *)

(** C5, as the code has it: when the calls of [Add] do not overlap (each
    action [AAdd] of a schedule is a call whose four statements run with no
    statement of another goroutine in between), a repaint writes exactly one
    line per task, in insertion order: after any such schedule, the task
    added [i]-th is the [i]-th element of the slice and its line is the
    [i]-th line of a repaint, whatever marks and repaints the schedule
    contains. *)
Theorem lines_follow_insertion_order
    (sp : Spinner) (tty end_ : bool) (tr : list Action) (c : Config) :
  run tr (start sp tty) = Some c ->
  let w := world c in
  (forall s c0 c1, step (AAdd s) c0 = Some c1 ->
     world c1 =
     world_of (Interleaving.interleave [0; 0; 0; 0]%nat [Interleaving.call_Add s]
                                       (world c0))) /\
  length (Workers w) = length (added tr) /\
  length (stdout (world_of (print end_ w))) =
    (length (stdout w) + length (added tr) + (if isTerminal w then 3 else 0))%nat /\
  forall i name, added tr !! i = Some name ->
    Workers w !! i = Some i /\
    exists v, heap w !! i = Some v /\ Name v = name /\
      stdout (world_of (print end_ w)) !! line_index w i =
        Some (line (glyph_in w (State v)) name).
Proof.
  intros Hrun w.
  destruct (run_Inv tr _ _ Hrun (Inv_start sp tty)) as [HI Hnames].
  simpl in Hnames. fold w in Hnames.
  pose proof (Inv_wf c HI) as Hwf. fold w in Hwf.
  pose proof (inv_slice c HI) as Hs. fold w in Hs.
  assert (length (heap w) = length (added tr)) as Hlen.
  { rewrite <- Hnames. by rewrite length_map. }
  assert (length (Workers w) = length (added tr)) as HlenW.
  { rewrite Hs, length_seq. exact Hlen. }
  split.
  { intros s c0 c1 Hstep. unfold step in Hstep.
    destruct (crashed c0); [discriminate|]. injection Hstep as <-.
    unfold Interleaving.call_Add. simpl. unfold_m. simpl.
    destruct (wg (world c0) + 1 <? 0); reflexivity. }
  split; [exact HlenW|]. split.
  - rewrite print_spec by exact Hwf. unfold repainted, repaint. simpl.
    rewrite length_app. destruct (isTerminal w); simpl;
      rewrite ?length_app, task_lines_length by exact Hwf; simpl; lia.
  - intros i name Hi.
    assert (i < length (heap w))%nat as Hlt.
    { rewrite Hlen. eapply lookup_lt_Some; eauto. }
    destruct (lookup_lt_is_Some_2 (heap w) i Hlt) as [v Hv].
    assert (Name v = name) as Hname.
    { rewrite <- Hnames in Hi. change (map Name) with (fmap (M:=list) Name) in Hi.
      rewrite list_lookup_fmap, Hv in Hi. simpl in Hi. congruence. }
    assert (Workers w !! i = Some i) as Hwi.
    { rewrite Hs. apply lookup_seq. lia. }
    split; [exact Hwi|].
    exists v. split; [exact Hv|]. split; [exact Hname|].
    rewrite <- Hname. by apply (print_line_at end_ w i i v).
Qed.

Lemma lines_follow_insertion_order_witness :
  exists c,
    run [AAdd "a"; AAdd "b"; APrint; ADone 1%nat; ASelTick] (start Box1 true) = Some c /\
    stdout (world_of (print false (world c))) !! line_index (world c) 0 =
      Some (line "⠙" "a") /\
    stdout (world_of (print false (world c))) !! line_index (world c) 1 =
      Some (line green_check "b").
Proof.
  eexists. split; [vm_compute; reflexivity|].
  pose proof (lines_follow_insertion_order Box1 true false
    [AAdd "a"; AAdd "b"; APrint; ADone 1%nat; ASelTick] _
    ltac:(vm_compute; reflexivity)) as (_ & _ & _ & H).
  split.
  - destruct (H 0%nat "a" ltac:(vm_compute; reflexivity)) as (_ & v & Hv & _ & Hl).
    vm_compute in Hv. injection Hv as <-. exact Hl.
  - destruct (H 1%nat "b" ltac:(vm_compute; reflexivity)) as (_ & v & Hv & _ & Hl).
    vm_compute in Hv. injection Hv as <-. exact Hl.
Defined.

(** ** The erase phase *)

(** C6: on a terminal, the first write of a repaint is the erase phase for
    the length the slice has at that repaint, the task lines follow it, and
    replayed on a terminal it erases exactly that many rows (the rows below
    the cursor) and brings the cursor back. *)
Theorem erase_tracks_task_count (end_ : bool) (w : World) (r : Z) :
  wf w -> isTerminal w = true ->
  let n := length (Workers w) in
  (exists rest,
     stdout (world_of (print end_ w)) = stdout w ++ wipe n :: task_lines w ++ rest) /\
  length (task_lines w) = n /\
  replay (wipe n) (mkTerm r [] Text) = mkTerm r (rows_below r n) Text /\
  length (rows_below r n) = n.
Proof.
  intros Hwf Htty n. split; [|split; [|split]].
  - rewrite print_spec by exact Hwf. unfold repainted, repaint.
    rewrite Htty. simpl. eexists. reflexivity.
  - by apply task_lines_length.
  - apply (replay_wipe n r []).
  - unfold rows_below. by rewrite length_map, length_seq.
Qed.

Lemma erase_tracks_task_count_witness :
  let w := world_of (Add "b" (world_of (Add "a" (New Box1 true)))) in
  (exists rest,
     stdout (world_of (print false w)) = wipe 2 :: task_lines w ++ rest) /\
  replay (wipe 2) (mkTerm 5 [] Text) = mkTerm 5 [6; 7] Text.
Proof.
  assert (wf (world_of (Add "b" (world_of (Add "a" (New Box1 true)))))) as Hwf.
  { unfold wf. simpl. repeat constructor; by eexists. }
  pose proof (erase_tracks_task_count false _ 5 Hwf ltac:(vm_compute; reflexivity))
    as (H1 & _ & H3 & _).
  split; [exact H1 | exact H3].
Defined.

(** ** The shape of a step *)

Lemma step_shape (a : Action) (c c' : Config) :
  step a c = Some c' -> Inv c ->
  crashed c = false /\
  match a with
  | AAdd s => c' = mkConfig (added_to s (world c)) (mainPc c) (waiterPc c) false
  | ADone x => c' = after (Done x (world c)) (mainPc c) (waiterPc c) /\
               same_but_marks c c'
  | AFail x => c' = after (Fail x (world c)) (mainPc c) (waiterPc c) /\
               same_but_marks c c'
  | ACancel => c' = mkConfig (set_ctxDone true (world c)) (mainPc c) (waiterPc c) false
  | ATty b => c' = mkConfig (set_isTerminal b (world c)) (mainPc c) (waiterPc c) false
  | APrint =>
      mainPc c = NotCalled /\
      c' = mkConfig (world c) (if isTerminal (world c) then InLoop else Blocked)
                    Waiting false
  | AWait =>
      waiterPc c = Waiting /\ wg (world c) = 0 /\
      c' = mkConfig (world c) (mainPc c) Sending false
  | ASelCtx =>
      mainPc c = InLoop /\ ctxDone (world c) = true /\
      c' = mkConfig (repainted true (world c)) Returned (waiterPc c) false
  | ASelTick =>
      mainPc c = InLoop /\
      c' = mkConfig (repainted false (world c)) InLoop (waiterPc c) false
  | ARecvDone =>
      (mainPc c = InLoop \/ mainPc c = Blocked) /\ waiterPc c = Sending /\
      c' = mkConfig (repainted true (world c)) Returned Finished false
  end.
Proof.
  unfold step. destruct (crashed c) eqn:Hlive; [discriminate|].
  intros Hstep HI. split; [reflexivity|].
  pose proof (Inv_wf c HI) as Hwf. pose proof (inv_wg c HI Hlive) as Hwg.
  destruct a.
  - injection Hstep as <-. rewrite Add_eq.
    destruct (wg (world c) + 1 <? 0) eqn:Hneg; [apply Z.ltb_lt in Hneg; lia|].
    reflexivity.
  - injection Hstep as <-. split; [reflexivity|].
    destruct (mark_frame Done Completed a (world c))
      as (H1 & _ & _ & H4 & H5 & H6 & H7 & _); [left; tauto|].
    unfold same_but_marks. simpl. tauto.
  - injection Hstep as <-. split; [reflexivity|].
    destruct (mark_frame Fail Failed a (world c))
      as (H1 & _ & _ & H4 & H5 & H6 & H7 & _); [right; tauto|].
    unfold same_but_marks. simpl. tauto.
  - by injection Hstep as <-.
  - by injection Hstep as <-.
  - destruct (mainPc c); try discriminate. by injection Hstep as <-.
  - destruct (waiterPc c); try discriminate.
    destruct (wg (world c) =? 0) eqn:Hz; [|discriminate].
    apply Z.eqb_eq in Hz. by injection Hstep as <-.
  - destruct (mainPc c); try discriminate.
    destruct (ctxDone (world c)); [|discriminate]. injection Hstep as <-.
    by rewrite print_spec.
  - destruct (mainPc c); try discriminate. injection Hstep as <-.
    by rewrite print_spec.
  - rewrite print_spec in Hstep by exact Hwf.
    destruct (mainPc c), (waiterPc c); try discriminate;
      injection Hstep as <-; auto.
Qed.

(** After [Print] returned nothing is written any more. *)
Lemma returned_stable (tr : list Action) (c c' : Config) :
  run tr c = Some c' -> Inv c -> mainPc c = Returned ->
  mainPc c' = Returned /\ stdout (world c') = stdout (world c).
Proof.
  revert c. induction tr as [|a tr IH]; intros c Hrun HI Hret; simpl in Hrun.
  - by injection Hrun as <-.
  - destruct (step a c) as [c1|] eqn:Hstep; [|discriminate].
    destruct (step_Inv a c c1 Hstep HI) as [HI1 _].
    destruct (step_shape a c c1 Hstep HI) as [_ Hsh].
    assert (mainPc c1 = Returned /\ stdout (world c1) = stdout (world c)) as [H1 H2].
    { destruct a.
      - subst c1. simpl. auto.
      - destruct Hsh as [_ (Hm & _ & _ & Ho & _)]. split; congruence.
      - destruct Hsh as [_ (Hm & _ & _ & Ho & _)]. split; congruence.
      - subst c1. simpl. auto.
      - subst c1. simpl. auto.
      - destruct Hsh as [Hm _]. congruence.
      - destruct Hsh as (_ & _ & ->). simpl. auto.
      - destruct Hsh as [Hm _]. congruence.
      - destruct Hsh as [Hm _]. congruence.
      - destruct Hsh as [[Hm|Hm] _]; congruence. }
    destruct (IH c1 Hrun HI1 H1) as [H3 H4]. split; congruence.
Qed.

Lemma step_mode (b : bool) (a : Action) (c c' : Config) :
  step a c = Some c' -> Inv c -> tty_ok b a = true ->
  mode_ok b c -> mode_ok b c'.
Proof.
  intros Hstep HI Hb (Ht & Hl & Hbl).
  destruct (step_shape a c c' Hstep HI) as [_ Hsh]. unfold mode_ok.
  destruct a.
  - subst c'. simpl. auto.
  - destruct Hsh as [_ (Hm & _ & _ & _ & Hty & _)]. rewrite Hm, Hty. auto.
  - destruct Hsh as [_ (Hm & _ & _ & _ & Hty & _)]. rewrite Hm, Hty. auto.
  - subst c'. simpl. auto.
  - subst c'. simpl in *. apply Bool.eqb_prop in Hb. subst b0. auto.
  - destruct Hsh as [_ ->]. simpl. rewrite Ht.
    destruct b; repeat split; auto; discriminate.
  - destruct Hsh as (_ & _ & ->). simpl. auto.
  - destruct Hsh as (_ & _ & ->). simpl. rewrite Ht.
    destruct b; repeat split; auto; discriminate.
  - destruct Hsh as (Hm & ->). simpl. rewrite Ht.
    destruct b; repeat split; auto; discriminate.
  - destruct Hsh as (_ & _ & ->). simpl. rewrite Ht.
    destruct b; repeat split; auto; discriminate.
Qed.

Lemma tty_const_cons (b : bool) (a : Action) (tr : list Action) :
  tty_const b (a :: tr) = true -> tty_ok b a = true /\ tty_const b tr = true.
Proof.
  unfold tty_const. simpl. apply andb_prop.
Qed.

Lemma tty_const_app (b : bool) (tr1 tr2 : list Action) :
  tty_const b (tr1 ++ tr2) = true -> tty_const b tr1 = true /\ tty_const b tr2 = true.
Proof.
  unfold tty_const. rewrite forallb_app. apply andb_prop.
Qed.

Lemma run_mode (b : bool) (tr : list Action) (c c' : Config) :
  run tr c = Some c' -> Inv c -> tty_const b tr = true ->
  mode_ok b c -> mode_ok b c'.
Proof.
  revert c. induction tr as [|a tr IH]; intros c Hrun HI Hb Hm; simpl in Hrun.
  - by injection Hrun as <-.
  - destruct (step a c) as [c1|] eqn:Hstep; [|discriminate].
    apply tty_const_cons in Hb as [Hb1 Hb2].
    destruct (step_Inv a c c1 Hstep HI) as [HI1 _].
    eapply IH; eauto using step_mode.
Qed.

Lemma mode_start (sp : Spinner) (b : bool) : mode_ok b (start sp b).
Proof. repeat split; discriminate. Qed.

(** The repaint [Print] returns after: the schedule splits at the action that
    made it, and the output of the run ends with that repaint. *)
Lemma final_repaint (tr : list Action) (c0 c : Config) :
  run tr c0 = Some c -> Inv c0 ->
  mainPc c0 <> Returned -> mainPc c = Returned ->
  exists tr1 a tr2 c1,
    tr = tr1 ++ a :: tr2 /\ run tr1 c0 = Some c1 /\ Inv c1 /\
    mainPc c1 <> Returned /\
    ((a = ASelCtx /\ mainPc c1 = InLoop /\ ctxDone (world c1) = true) \/
     (a = ARecvDone /\ waiterPc c1 = Sending /\
      (mainPc c1 = InLoop \/ mainPc c1 = Blocked))) /\
    stdout (world c) = stdout (world c1) ++ repaint true (world c1).
Proof.
  revert c0. induction tr as [|a tr IH]; intros c0 Hrun HI Hnot Hret; simpl in Hrun.
  - injection Hrun as <-. contradiction.
  - destruct (step a c0) as [c0'|] eqn:Hstep; [|discriminate].
    destruct (step_Inv a c0 c0' Hstep HI) as [HI' _].
    destruct (step_shape a c0 c0' Hstep HI) as [_ Hsh].
    assert (mainPc c0' = Returned \/ mainPc c0' <> Returned) as [Hr|Hr].
    { destruct (mainPc c0'); auto; right; discriminate. }
    + destruct (returned_stable tr c0' c Hrun HI' Hr) as [_ Hout].
      exists [], a, tr, c0. simpl.
      split; [reflexivity|]. split; [reflexivity|]. split; [exact HI|].
      split; [exact Hnot|]. split.
      * destruct a; try (subst c0'; simpl in Hr; contradiction).
        -- destruct Hsh as [_ (Hm & _)]. congruence.
        -- destruct Hsh as [_ (Hm & _)]. congruence.
        -- destruct Hsh as [_ ->]. simpl in Hr.
           destruct (isTerminal (world c0)); discriminate.
        -- destruct Hsh as (_ & _ & ->). simpl in Hr. contradiction.
        -- left. tauto.
        -- destruct Hsh as [_ ->]. discriminate.
        -- right. tauto.
      * rewrite Hout.
        destruct a; try (subst c0'; simpl in Hr; contradiction).
        -- destruct Hsh as [_ (Hm & _)]. congruence.
        -- destruct Hsh as [_ (Hm & _)]. congruence.
        -- destruct Hsh as [_ ->]. simpl in Hr.
           destruct (isTerminal (world c0)); discriminate.
        -- destruct Hsh as (_ & _ & ->). simpl in Hr. contradiction.
        -- destruct Hsh as (_ & _ & ->). reflexivity.
        -- destruct Hsh as [_ ->]. discriminate.
        -- destruct Hsh as (_ & _ & ->). reflexivity.
    + destruct (IH c0' Hrun HI' Hr Hret)
        as (tr1 & b & tr2 & c1 & -> & Hrun1 & HI1 & Hn1 & Hcase & Hout).
      exists (a :: tr1), b, tr2, c1. simpl. rewrite Hstep.
      split; [reflexivity|]. split; [exact Hrun1|]. split; [exact HI1|].
      split; [exact Hn1|]. split; [exact Hcase | exact Hout].
Qed.

(** Induction over a run, for a property the allowed actions preserve. *)
Lemma run_preserves (P : Config -> Prop) (ok : Action -> bool) :
  (forall a c c', step a c = Some c' -> Inv c -> ok a = true -> P c -> P c') ->
  forall tr c c', run tr c = Some c' -> Inv c -> forallb ok tr = true -> P c -> P c'.
Proof.
  intros Hstep tr. induction tr as [|a tr IH]; intros c c' Hrun HI Hok HP; simpl in *.
  - by injection Hrun as <-.
  - destruct (step a c) as [c1|] eqn:Hs; [|discriminate].
    apply andb_prop in Hok as [Hok1 Hok2].
    destruct (step_Inv a c c1 Hs HI) as [HI1 _].
    eapply IH; eauto.
Qed.

(** ** Cursor visibility *)

(** C3: on a terminal, whichever way [Print] returns (the completion
    received from the waiter, or the cancelled context), the last two writes
    are hide-cursor and then show-cursor. *)
Theorem cursor_shown_on_return (sp : Spinner) (tr : list Action) (c : Config) :
  run tr (start sp true) = Some c ->
  tty_const true tr = true ->
  mainPc c = Returned ->
  exists tr1 a tr2 pre,
    tr = tr1 ++ a :: tr2 /\ (a = ASelCtx \/ a = ARecvDone) /\
    stdout (world c) = pre ++ [hide_cursor; show_cursor].
Proof.
  intros Hrun Htty Hret.
  destruct (final_repaint tr _ c Hrun (Inv_start sp true))
    as (tr1 & a & tr2 & c1 & -> & Hrun1 & HI1 & _ & Hcase & Hout);
    [discriminate | exact Hret |].
  apply tty_const_app in Htty as [Htty1 _].
  destruct (run_mode true tr1 _ c1 Hrun1 (Inv_start sp true) Htty1 (mode_start sp true))
    as [Hterm _].
  exists tr1, a, tr2, (stdout (world c1) ++
                       wipe (length (Workers (world c1))) :: task_lines (world c1)).
  split; [reflexivity|]. split; [destruct Hcase as [[-> _]|[-> _]]; auto|].
  rewrite Hout. unfold repaint. rewrite Hterm.
  rewrite <- app_assoc. reflexivity.
Qed.

(** Both ways out: a task still pending when the context is cancelled, and
    no task at all. *)
Lemma cursor_shown_on_return_witness :
  (exists c pre,
     run [AAdd "a"; APrint; ASelTick; ACancel; ASelCtx] (start Box1 true) = Some c /\
     stdout (world c) = pre ++ [hide_cursor; show_cursor]) /\
  (exists c pre,
     run [APrint; AWait; ARecvDone] (start Box1 true) = Some c /\
     stdout (world c) = pre ++ [hide_cursor; show_cursor]).
Proof.
  split.
  - destruct (cursor_shown_on_return Box1
                [AAdd "a"; APrint; ASelTick; ACancel; ASelCtx] _
                ltac:(vm_compute; reflexivity) ltac:(vm_compute; reflexivity)
                ltac:(vm_compute; reflexivity))
      as (_ & _ & _ & pre & _ & _ & H).
    eexists _, pre. split; [vm_compute; reflexivity | exact H].
  - destruct (cursor_shown_on_return Box1 [APrint; AWait; ARecvDone] _
                ltac:(vm_compute; reflexivity) ltac:(vm_compute; reflexivity)
                ltac:(vm_compute; reflexivity))
      as (_ & _ & _ & pre & _ & _ & H).
    eexists _, pre. split; [vm_compute; reflexivity | exact H].
Defined.

(** ** Output that is not a terminal *)





(** ** The terminal check *)

Lemma forallb_any (tr : list Action) : forallb any_action tr = true.
Proof. induction tr; simpl; auto. Qed.

Lemma step_strategy (m : MainPc) (a : Action) (c c' : Config) :
  step a c = Some c' -> Inv c -> any_action a = true ->
  (m = InLoop \/ m = Blocked) /\ strategy m c ->
  (m = InLoop \/ m = Blocked) /\ strategy m c'.
Proof.
  intros Hstep HI _ [Hm Hs]. split; [exact Hm|].
  destruct (step_shape a c c' Hstep HI) as [_ Hsh]. unfold strategy in *.
  destruct a.
  - subst c'. exact Hs.
  - destruct Hsh as [_ (-> & _)]. exact Hs.
  - destruct Hsh as [_ (-> & _)]. exact Hs.
  - subst c'. exact Hs.
  - subst c'. exact Hs.
  - destruct Hsh as [Hn _]. rewrite Hn in Hs.
    destruct Hs as [Hs|Hs]; [discriminate|].
    destruct Hm as [Hm|Hm]; congruence.
  - destruct Hsh as (_ & _ & ->). exact Hs.
  - destruct Hsh as (_ & _ & ->). left. reflexivity.
  - destruct Hsh as (Hi & ->). simpl. rewrite <- Hi. exact Hs.
  - destruct Hsh as (_ & _ & ->). left. reflexivity.
Qed.

(** C2, as the code has it: the check at the entry of [Print] fixes, for the
    whole call, how the call waits (the [select] loop on a terminal, the
    blocking receive otherwise) whatever the environment does later; every
    call of [print] checks again, and that check alone fixes the format of
    its repaint; the two agree when the environment does not change during
    the call. *)
Theorem entry_check_fixes_waiting_recheck_fixes_format
    (sp : Spinner) (tty end_ : bool) (tr1 tr2 : list Action) (c0 c1 c2 : Config) :
  run tr1 (start sp tty) = Some c0 ->
  step APrint c0 = Some c1 ->
  run tr2 c1 = Some c2 ->
  let entry := isTerminal (world c0) in
  let w := world c2 in
  let n := length (Workers w) in
  (mainPc c2 = Returned \/ mainPc c2 = if entry then InLoop else Blocked) /\
  (isTerminal w = true ->
   stdout (world_of (print end_ w)) =
     stdout w ++
     wipe n :: map (fun v => line (glyph red_cross green_check (frame w) (State v))
                                  (Name v)) (heap w) ++
     [hide_cursor; if end_ then show_cursor else Repeat cursor_up n]) /\
  (isTerminal w = false ->
   stdout (world_of (print end_ w)) =
     stdout w ++ map (fun v => line (glyph "✗" "✔" "-" (State v)) (Name v)) (heap w)) /\
  (tty_const entry tr2 = true -> isTerminal w = entry).
Proof.
  intros Hrun1 Hstep Hrun2 entry w n.
  destruct (run_Inv tr1 _ c0 Hrun1 (Inv_start sp tty)) as [HI0 _].
  destruct (step_Inv _ _ _ Hstep HI0) as [HI1 _].
  destruct (run_Inv tr2 _ c2 Hrun2 HI1) as [HI2 _].
  destruct (step_shape _ _ _ Hstep HI0) as [_ [_ Hc1]].
  pose proof (Inv_wf c2 HI2) as Hwf. pose proof (Inv_tasks c2 HI2) as Ht.
  fold w in Hwf, Ht.
  split; [|split; [|split]].
  - assert (((if entry then InLoop else Blocked) = InLoop \/
             (if entry then InLoop else Blocked) = Blocked) /\
            strategy (if entry then InLoop else Blocked) c1) as H1.
    { split; [destruct entry; auto|]. right. subst c1. reflexivity. }
    apply (run_preserves _ _ (step_strategy _) tr2 c1 c2 Hrun2 HI1 (forallb_any tr2)) in H1.
    exact (proj2 H1).
  - intros Hterm. rewrite print_spec by exact Hwf.
    unfold repainted, repaint, task_lines, glyph_in. rewrite Hterm, Ht. reflexivity.
  - intros Hterm. rewrite print_spec by exact Hwf.
    unfold repainted, repaint, task_lines, glyph_in. rewrite Hterm, Ht. reflexivity.
  - intros Hconst.
    assert (mode_ok entry c1) as Hm1.
    { subst c1. unfold mode_ok, entry. simpl.
      destruct (isTerminal (world c0)); repeat split; auto; discriminate. }
    exact (proj1 (run_mode entry tr2 c1 c2 Hrun2 HI1 Hconst Hm1)).
Qed.

Lemma entry_check_fixes_waiting_recheck_fixes_format_witness :
  exists c2,
    run [AAdd "a"; APrint; ATty false; ASelTick] (start Box1 true) = Some c2 /\
    mainPc c2 = InLoop /\
    stdout (world_of (print true (world c2))) = [line "-" "a"; line "-" "a"].
Proof.
  eexists. split; [vm_compute; reflexivity|].
  destruct (entry_check_fixes_waiting_recheck_fixes_format Box1 true true
              [AAdd "a"] [ATty false; ASelTick] _ _ _
              ltac:(vm_compute; reflexivity) ltac:(vm_compute; reflexivity)
              ltac:(vm_compute; reflexivity))
    as ([H|H] & _ & Hplain & _); [discriminate|].
  split; [exact H|].
  pose proof (Hplain ltac:(vm_compute; reflexivity)) as Hout.
  vm_compute in Hout. vm_compute. exact Hout.
Defined.

(** C2, as stated, at one task: two calls of [Print] whose entry check found
    a terminal, and whose first repaint differs because the check made again
    by [print] found something else. *)
Lemma repaint_follows_recheck :
  exists c1 c2,
    run [AAdd "a"; APrint; ASelTick] (start Box1 true) = Some c1 /\
    run [AAdd "a"; APrint; ATty false; ASelTick] (start Box1 true) = Some c2 /\
    mainPc c1 = InLoop /\ mainPc c2 = InLoop /\
    stdout (world c1) = [wipe 1; line "⠋" "a"; hide_cursor; cursor_up] /\
    stdout (world c2) = [line "-" "a"].
Proof.
  eexists _, _.
  split; [vm_compute; reflexivity|]. split; [vm_compute; reflexivity|].
  repeat split; vm_compute; reflexivity.
Qed.

(** ** No task at all *)

Lemma repaints_snoc (tr : list Action) (a : Action) :
  repaints (tr ++ [a]) = (repaints tr + if is_repaint a then 1 else 0)%nat.
Proof.
  induction tr as [|b tr IH]; simpl; [lia|]. rewrite IH. lia.
Qed.

Lemma run_snoc (tr : list Action) (a : Action) (c c' : Config) :
  run (tr ++ [a]) c = Some c' ->
  exists c1, run tr c = Some c1 /\ step a c1 = Some c'.
Proof.
  rewrite run_app. destruct (run tr c) as [c1|]; [|discriminate].
  simpl. destruct (step a c1) as [c2|] eqn:Hs; [|discriminate].
  intros [= <-]. eauto.
Qed.

Lemma empty_run (sp : Spinner) (tty : bool) (tr : list Action) (c : Config) :
  run tr (start sp tty) = Some c -> forallb idle tr = true ->
  heap (world c) = [] /\ Workers (world c) = [] /\ wg (world c) = 0 /\
  isTerminal (world c) = tty /\ ctxDone (world c) = false /\
  ((mainPc c <> Returned /\ stdout (world c) = [] /\ repaints tr = 0%nat) \/
   (mainPc c = Returned /\
    stdout (world c) = (if tty then [EmptyString; hide_cursor; show_cursor] else []) /\
    repaints tr = 1%nat)).
Proof.
  revert c. induction tr as [|a tr IH] using rev_ind; intros c Hrun Hidle.
  - injection Hrun as <-. simpl.
    do 5 (split; [reflexivity|]). left. repeat split. discriminate.
  - apply run_snoc in Hrun as (c1 & Hrun1 & Hstep).
    rewrite forallb_app in Hidle. apply andb_prop in Hidle as [Hidle Ha].
    simpl in Ha. rewrite andb_true_r in Ha.
    destruct (IH c1 Hrun1 Hidle) as (Hh & Hw & Hg & Ht & Hc & Hcase).
    destruct (run_Inv tr _ c1 Hrun1 (Inv_start sp tty)) as [HI1 _].
    destruct (step_shape a c1 c Hstep HI1) as [_ Hsh].
    rewrite repaints_snoc.
    destruct a; try discriminate; simpl is_repaint; rewrite ?Nat.add_0_r.
    + (* Done on a set without tasks panics and changes nothing *)
      destruct Hsh as [-> _]. rewrite Done_eq. rewrite Hh. simpl.
      rewrite Hh, Hw, Hg, Ht, Hc. repeat split; auto.
    + destruct Hsh as [-> _]. rewrite Fail_eq. rewrite Hh. simpl.
      rewrite Hh, Hw, Hg, Ht, Hc. repeat split; auto.
    + destruct Hsh as [Hn ->]. simpl. repeat split; auto.
      left. destruct Hcase as [(_ & Ho & Hr)|(Hret & _)]; [|congruence].
      repeat split; auto. destruct (isTerminal (world c1)); discriminate.
    + destruct Hsh as (_ & _ & ->). simpl. repeat split; auto.
    + destruct Hsh as (_ & Hcd & _). congruence.
    + destruct Hsh as (Hm & _ & ->). cbn [world mainPc].
      destruct (repainted_frame true (world c1)) as (-> & -> & -> & -> & -> & ->).
      do 5 (split; [assumption|]). right.
      destruct Hcase as [(_ & Ho & Hr)|(Hret & _)];
        [|destruct Hm; congruence].
      split; [reflexivity|]. split; [|lia].
      rewrite Ho. unfold repaint, task_lines, tasks. rewrite Ht, Hw.
      destruct tty; reflexivity.
Qed.

(** C7: [Print] on a set without tasks, with no cancellation: the waiter
    finds the counter at zero at once, [Print] receives the completion and
    returns, and in a schedule where nothing else happens meanwhile the call
    makes exactly one repaint, which has no task line. *)
Theorem empty_set_one_empty_repaint
    (sp : Spinner) (tty : bool) (tr : list Action) (c : Config) :
  run tr (start sp tty) = Some c ->
  forallb idle tr = true ->
  mainPc c = Returned ->
  step AWait (mkConfig (New sp tty) (if tty then InLoop else Blocked) Waiting false)
    = Some (mkConfig (New sp tty) (if tty then InLoop else Blocked) Sending false) /\
  (exists c', run [APrint; AWait; ARecvDone] (start sp tty) = Some c' /\
              mainPc c' = Returned) /\
  repaints tr = 1%nat /\
  stdout (world c) = (if tty then [EmptyString; hide_cursor; show_cursor] else []) /\
  tasks (world c) = [].
Proof.
  intros Hrun Hidle Hret.
  destruct (empty_run sp tty tr c Hrun Hidle) as (Hh & Hw & _ & _ & _ & Hcase).
  split; [reflexivity|]. split.
  - destruct tty; eexists; split; reflexivity.
  - destruct Hcase as [(Hn & _)|(_ & Ho & Hr)]; [contradiction|].
    repeat split; auto. unfold tasks. rewrite Hw. reflexivity.
Qed.

Lemma empty_set_one_empty_repaint_witness :
  exists c,
    run [APrint; AWait; ARecvDone] (start Box1 true) = Some c /\
    repaints [APrint; AWait; ARecvDone] = 1%nat /\
    stdout (world c) = [EmptyString; hide_cursor; show_cursor].
Proof.
  eexists. split; [vm_compute; reflexivity|].
  destruct (empty_set_one_empty_repaint Box1 true [APrint; AWait; ARecvDone] _
              ltac:(vm_compute; reflexivity) ltac:(vm_compute; reflexivity)
              ltac:(vm_compute; reflexivity)) as (_ & _ & Hr & Ho & _).
  split; [exact Hr | exact Ho].
Defined.

(** ** Glyphs and the completion path *)

Lemma pending_count_app (h : list Worker) (v : Worker) :
  pending_count (h ++ [v]) = (pending_count h + if Active v then 1 else 0)%nat.
Proof.
  induction h as [|u h IH]; simpl; [lia|]. rewrite IH. lia.
Qed.

Lemma pending_count_insert (h : list Worker) (a : addr) (v v' : Worker) :
  h !! a = Some v -> Active v = true -> Active v' = false ->
  (pending_count (<[a := v']> h) + 1)%nat = pending_count h.
Proof.
  revert a. induction h as [|u h IH]; intros a Hv Ha Ha'; [discriminate|].
  destruct a as [|a].
  - injection Hv as ->. cbn [insert list_insert pending_count].
    rewrite Ha, Ha'. lia.
  - change ((u :: h) !! S a) with (h !! a) in Hv.
    pose proof (IH a Hv Ha Ha') as Hpc.
    change (<[S a := v']> (u :: h)) with (u :: <[a := v']> h).
    cbn [pending_count]. destruct (Active u); lia.
Qed.

Lemma pending_count_zero (h : list Worker) (a : addr) (v : Worker) :
  pending_count h = 0%nat -> h !! a = Some v -> Active v = false.
Proof.
  revert a. induction h as [|u h IH]; intros a Hz Hv; [discriminate|].
  simpl in Hz. destruct a as [|a]; simpl in Hv.
  - injection Hv as ->. destruct (Active v); [discriminate | reflexivity].
  - apply (IH a); [lia | exact Hv].
Qed.

Lemma Kept_mark (done : list addr) (waited : bool) (m : addr -> M unit)
      (s : WorkerState) (a : addr) (w : World) (p : WaiterPc) :
  (m = Done /\ s = Completed) \/ (m = Fail /\ s = Failed) ->
  Kept done waited (heap w) (wg w) p ->
  existsb (Nat.eqb a) done = false ->
  panicked (m a w) = false ->
  Kept (a :: done) waited (heap (world_of (m a w))) (wg (world_of (m a w))) p.
Proof.
  intros Hm [K1 K2 K3 K4 K5] Hfresh Hlive.
  assert (s = Completed \/ s = Failed) as Hs by (destruct Hm as [[_ ->]|[_ ->]]; auto).
  assert (m a w = match heap w !! a with
    | None => Panic w
    | Some v => if parent v then
                  if wg w - 1 <? 0 then Panic (marked s a v w) else Ok tt (marked s a v w)
                else Panic (set_heap (<[a := mkWorker s (Name v) (parent v)]> (heap w)) w)
    end) as Heq.
  { destruct Hm as [[-> ->]|[-> ->]]; [apply Done_eq | apply Fail_eq]. }
  rewrite Heq in *. clear Heq. unfold marked in *.
  destruct (heap w !! a) as [v|] eqn:Hv; [|discriminate].
  destruct (K1 a v Hv) as [Hp Hst]. rewrite Hfresh in Hst. rewrite Hp in *.
  assert (Active (mkWorker s (Name v) true) = false) as Hna.
  { destruct Hs as [-> | ->]; reflexivity. }
  assert (Active v = true) as Hact by (unfold Active; rewrite Hst; reflexivity).
  pose proof (pending_count_insert (heap w) a v _ Hv Hact Hna) as Hpc.
  destruct (wg w - 1 <? 0) eqn:Hneg; [discriminate|].
  cbn [world_of marked set_wg set_heap heap wg].
  split.
  - intros b u Hu. simpl. destruct (Nat.eqb_spec b a) as [->|Hne].
    + rewrite list_lookup_insert_eq in Hu by (eapply lookup_lt_Some; eauto).
      injection Hu as <-. simpl. split; [reflexivity | exact Hs].
    + rewrite list_lookup_insert_ne in Hu by congruence.
      destruct (K1 b u Hu) as [Hpu Hsu]. simpl. auto.
  - rewrite K2. lia.
  - intros Hw. apply K3 in Hw. lia.
  - exact K4.
  - intros b Hb. rewrite length_insert. simpl in Hb.
    destruct (Nat.eqb_spec b a) as [Heq|Hne].
    + rewrite Heq. eapply lookup_lt_Some; eauto.
    + apply K5. exact Hb.
Qed.

Lemma step_disciplined (a : Action) (tr : list Action) (done : list addr)
      (waited : bool) (c c' : Config) :
  step a c = Some c' -> Inv c ->
  Kept done waited (heap (world c)) (wg (world c)) (waiterPc c) ->
  disciplined_from done waited (a :: tr) = true ->
  exists done' waited',
    disciplined_from done' waited' tr = true /\
    (crashed c' = false ->
     Kept done' waited' (heap (world c')) (wg (world c')) (waiterPc c')).
Proof.
  intros Hstep HI HK Hd.
  destruct (step_shape a c c' Hstep HI) as [_ Hsh].
  destruct a; simpl in Hd.
  - apply andb_prop in Hd as [Hw Hd]. apply negb_true_iff in Hw. subst waited.
    exists done, false. split; [exact Hd|]. intros _. subst c'. simpl.
    destruct HK as [K1 K2 K3 K4 K5]. split.
    + intros b u Hu. destruct (decide (b < length (heap (world c)))%nat) as [Hlt|Hge].
      * rewrite lookup_app_l in Hu by exact Hlt. auto.
      * assert (existsb (Nat.eqb b) done = false) as Hnb.
        { destruct (existsb (Nat.eqb b) done) eqn:Hb; [|reflexivity].
          apply K5 in Hb. contradiction. }
        rewrite Hnb. rewrite lookup_app_r in Hu by lia.
        destruct (b - length (heap (world c)))%nat; simpl in Hu; [|discriminate].
        injection Hu as <-. auto.
    + rewrite pending_count_app, K2. simpl. lia.
    + discriminate.
    + exact K4.
    + intros b Hb. apply K5 in Hb. rewrite length_app. simpl. lia.
  - apply andb_prop in Hd as [Hf Hd]. apply negb_true_iff in Hf.
    exists (a :: done), waited. split; [exact Hd|].
    destruct Hsh as [-> _]. simpl. intros Hlive.
    apply (Kept_mark done waited Done Completed); auto.
  - apply andb_prop in Hd as [Hf Hd]. apply negb_true_iff in Hf.
    exists (a :: done), waited. split; [exact Hd|].
    destruct Hsh as [-> _]. simpl. intros Hlive.
    apply (Kept_mark done waited Fail Failed); auto.
  - exists done, waited. split; [exact Hd|]. subst c'. simpl. auto.
  - exists done, waited. split; [exact Hd|]. subst c'. simpl. auto.
  - exists done, waited. split; [exact Hd|]. destruct Hsh as [_ ->]. simpl.
    intros _. destruct HK as [K1 K2 K3 K4 K5]. split; auto. discriminate.
  - exists done, true. split; [exact Hd|]. destruct Hsh as (_ & Hz & ->). simpl.
    intros _. destruct HK as [K1 K2 K3 K4 K5]. split; auto.
    intros _. lia.
  - exists done, waited. split; [exact Hd|]. destruct Hsh as (_ & _ & ->).
    cbn [world waiterPc].
    destruct (repainted_frame true (world c)) as (-> & _ & -> & _). auto.
  - exists done, waited. split; [exact Hd|]. destruct Hsh as (_ & ->).
    cbn [world waiterPc].
    destruct (repainted_frame false (world c)) as (-> & _ & -> & _). auto.
  - exists done, waited. split; [exact Hd|]. destruct Hsh as (_ & _ & ->).
    cbn [world waiterPc].
    destruct (repainted_frame true (world c)) as (-> & _ & -> & _).
    intros _. destruct HK as [K1 K2 K3 K4 K5]. split; auto. discriminate.
Qed.

Lemma run_disciplined (tr : list Action) (done : list addr) (waited : bool)
      (c c' : Config) :
  run tr c = Some c' -> Inv c ->
  (crashed c = false -> Kept done waited (heap (world c)) (wg (world c)) (waiterPc c)) ->
  disciplined_from done waited tr = true ->
  exists done' waited',
    crashed c' = false ->
    Kept done' waited' (heap (world c')) (wg (world c')) (waiterPc c').
Proof.
  revert done waited c. induction tr as [|a tr IH]; intros done waited c Hrun HI HK Hd.
  - injection Hrun as <-. eauto.
  - simpl in Hrun. destruct (step a c) as [c1|] eqn:Hstep; [|discriminate].
    destruct (step_shape a c c1 Hstep HI) as [Hlive _].
    destruct (step_Inv a c c1 Hstep HI) as [HI1 _].
    destruct (step_disciplined a tr done waited c c1 Hstep HI (HK Hlive) Hd)
      as (done1 & waited1 & Hd1 & HK1).
    eapply IH; eauto.
Qed.

Lemma Kept_start (sp : Spinner) (tty : bool) :
  Kept [] false (heap (world (start sp tty))) (wg (world (start sp tty)))
       (waiterPc (start sp tty)).
Proof. split; simpl; try discriminate; auto. Qed.

(** C4, as the code has it: in every repaint the glyph of a task is a
    function of the state read for it (success for [Completed], failure for
    [Failed], the pending glyph otherwise); and a final repaint on the
    completion path shows no pending task when the schedule is disciplined,
    that is, unless a task was marked twice or added after the waiter saw the
    counter at zero. *)
Theorem glyph_follows_state (sp : Spinner) (tty : bool) (tr : list Action) (c : Config) :
  run tr (start sp tty) = Some c ->
  let w := world c in
  (forall end_ i v, heap w !! i = Some v ->
     stdout (world_of (print end_ w)) !! line_index w i =
       Some (line (glyph_in w (State v)) (Name v)) /\
     (State v = Completed ->
      glyph_in w (State v) = if isTerminal w then green_check else "✔") /\
     (State v = Failed ->
      glyph_in w (State v) = if isTerminal w then red_cross else "✗") /\
     (State v = Pending ->
      glyph_in w (State v) = if isTerminal w then frame w else "-")) /\
  (disciplined tr = true ->
   forall c', step ARecvDone c = Some c' ->
     mainPc c' = Returned /\
     stdout (world c') = stdout w ++ repaint true w /\
     forall i v, heap w !! i = Some v -> State v = Completed \/ State v = Failed).
Proof.
  intros Hrun w.
  destruct (run_Inv tr _ c Hrun (Inv_start sp tty)) as [HI _].
  pose proof (Inv_wf c HI) as Hwf. pose proof (inv_slice c HI) as Hs.
  fold w in Hwf, Hs. split.
  - intros end_ i v Hv.
    assert (Workers w !! i = Some i) as Hi.
    { rewrite Hs. apply lookup_seq. split; [reflexivity|].
      simpl. eapply lookup_lt_Some; eauto. }
    split; [by apply (print_line_at end_ w i i v)|].
    unfold glyph_in. repeat split; intros ->; destruct (isTerminal w); reflexivity.
  - intros Hd c' Hstep.
    destruct (step_shape _ _ _ Hstep HI) as [Hlive (_ & Hsend & ->)].
    destruct (run_disciplined tr [] false _ c Hrun (Inv_start sp tty)
                (fun _ => Kept_start sp tty) Hd) as (done & waited & HK).
    destruct (HK Hlive) as [K1 _ K3 K4 _].
    cbn [world mainPc].
    split; [reflexivity|]. split; [apply repainted_frame|].
    intros i v Hv. destruct (K1 i v Hv) as [_ Hst].
    destruct (existsb (Nat.eqb i) done); [exact Hst|].
    pose proof (pending_count_zero _ i v (K3 (K4 Hsend)) Hv) as Hna.
    unfold Active in Hna. rewrite Hst in Hna. discriminate.
Qed.

(** Scenario B of the specification: three tasks, all completed. *)
Lemma glyph_follows_state_witness :
  exists c,
    run [AAdd "a"; AAdd "b"; AAdd "c"; APrint; ADone 1%nat; ADone 0%nat;
         ADone 2%nat; AWait; ARecvDone] (start Box1 true) = Some c /\
    stdout (world c) =
      [wipe 3; line green_check "a"; line green_check "b"; line green_check "c";
       hide_cursor; show_cursor].
Proof.
  eexists. split; [vm_compute; reflexivity|].
  destruct (glyph_follows_state Box1 true
              [AAdd "a"; AAdd "b"; AAdd "c"; APrint; ADone 1%nat; ADone 0%nat;
               ADone 2%nat; AWait] _ ltac:(vm_compute; reflexivity)) as [_ H].
  destruct (H ltac:(vm_compute; reflexivity) _ ltac:(vm_compute; reflexivity))
    as (_ & Hout & _).
  vm_compute in Hout. vm_compute. exact Hout.
Defined.

(** C4, as stated, on the completion path: a task added after the waiter saw
    the counter at zero, and a task left pending by the double mark of
    another, are both painted pending in the final repaint although the
    context was not cancelled. *)
Lemma pending_line_on_completion_path :
  (exists c,
     run [APrint; AWait; AAdd "x"; ARecvDone] (start Box1 true) = Some c /\
     mainPc c = Returned /\ ctxDone (world c) = false /\
     State <$> heap (world c) !! 0%nat = Some Pending /\
     stdout (world c) = [wipe 1; line "⠋" "x"; hide_cursor; show_cursor]) /\
  (exists c,
     run [AAdd "a"; AAdd "b"; APrint; ADone 0%nat; ADone 0%nat; AWait; ARecvDone]
         (start Box1 true) = Some c /\
     mainPc c = Returned /\ ctxDone (world c) = false /\
     State <$> heap (world c) !! 1%nat = Some Pending /\
     stdout (world c) =
       [wipe 2; line green_check "a"; line "⠋" "b"; hide_cursor; show_cursor]).
Proof.
  split; eexists; (split; [vm_compute; reflexivity|]);
    repeat split; vm_compute; reflexivity.
Qed.

(** ** Goroutines that overlap: the counter and the slice *)

Module InterleavingFacts.
Import Interleaving.

Lemma Add_statements (s : string) (w : World) :
  interleave [0; 0; 0; 0]%nat [call_Add s] w =
  (a <- Add s ;; ret [AtReturn a]) w.
Proof.
  unfold call_Add. simpl. unfold_m. simpl.
  destruct (wg w + 1 <? 0); reflexivity.
Qed.

Lemma Done_statements (a : addr) (w : World) :
  interleave [0; 0]%nat [call_Done a] w = (Done a ;;; ret [AtEnd]) w.
Proof.
  unfold bind at 1. rewrite Done_eq.
  unfold call_Done. cbn [interleave lookup list_lookup]. unfold bind at 1.
  cbn [stmt]. unfold bind at 1. rewrite set_State_eq.
  destruct (heap w !! a) as [[st nm pr]|] eqn:Hv; [|reflexivity].
  pose proof (lookup_lt_Some _ _ _ Hv) as Hlt.
  unfold ret at 1.
  change (<[0%nat:=AtWgDone a]> [AtSetState a Completed]) with [AtWgDone a].
  cbn [lookup list_lookup stmt]. unfold bind at 1. unfold bind at 1.
  unfold deref. cbn [heap set_heap Name parent].
  rewrite list_lookup_insert_eq by exact Hlt. cbn [parent].
  destruct pr; [|reflexivity].
  unfold bind, wg_Done, wg_Add, ret, marked. simpl.
  change (wg w + -1) with (wg w - 1).
  destruct (wg w - 1 <? 0); reflexivity.
Qed.

Lemma Fail_statements (a : addr) (w : World) :
  interleave [0; 0]%nat [call_Fail a] w = (Fail a ;;; ret [AtEnd]) w.
Proof.
  unfold bind at 1. rewrite Fail_eq.
  unfold call_Fail. cbn [interleave lookup list_lookup]. unfold bind at 1.
  cbn [stmt]. unfold bind at 1. rewrite set_State_eq.
  destruct (heap w !! a) as [[st nm pr]|] eqn:Hv; [|reflexivity].
  pose proof (lookup_lt_Some _ _ _ Hv) as Hlt.
  unfold ret at 1.
  change (<[0%nat:=AtWgDone a]> [AtSetState a Failed]) with [AtWgDone a].
  cbn [lookup list_lookup stmt]. unfold bind at 1. unfold bind at 1.
  unfold deref. cbn [heap set_heap Name parent].
  rewrite list_lookup_insert_eq by exact Hlt. cbn [parent].
  destruct pr; [|reflexivity].
  unfold bind, wg_Done, wg_Add, ret, marked. simpl.
  change (wg w + -1) with (wg w - 1).
  destruct (wg w - 1 <? 0); reflexivity.
Qed.

Lemma stmt_counted (t t' : Pc) (w w' : World) :
  stmt t w = Ok t' w' -> wg w' - counted t' = wg w - counted t.
Proof.
  destruct t; simpl; unfold_m.
  - destruct (wg w + 1 <? 0); intros [= <- <-]. simpl. lia.
  - intros [= <- <-]. reflexivity.
  - intros [= <- <-]. reflexivity.
  - intros [= <- <-]. reflexivity.
  - intros [= <- <-]. reflexivity.
  - destruct (heap w !! a); intros [= <- <-]. reflexivity.
  - destruct (heap w !! a) as [v|]; [|discriminate].
    destruct (parent v); [|discriminate].
    destruct (wg w + -1 <? 0); intros [= <- <-]. simpl. lia.
  - intros [= <- <-]. reflexivity.
Qed.

Lemma counted_all_insert (pool : list Pc) (i : nat) (t t' : Pc) :
  pool !! i = Some t ->
  counted_all (<[i := t']> pool) = counted_all pool - counted t + counted t'.
Proof.
  revert i. induction pool as [|u pool IH]; intros i Hi; [discriminate|].
  destruct i as [|i].
  - injection Hi as ->. simpl. lia.
  - change ((u :: pool) !! S i) with (pool !! i) in Hi.
    change (<[S i := t']> (u :: pool)) with (u :: <[i := t']> pool).
    cbn [counted_all]. rewrite (IH i Hi). lia.
Qed.

(** No interleaving loses an update of the counter. *)
Lemma interleave_counted (sch : list nat) (pool pool' : list Pc) (w w' : World) :
  interleave sch pool w = Ok pool' w' ->
  wg w' - counted_all pool' = wg w - counted_all pool.
Proof.
  revert pool w. induction sch as [|i sch IH]; intros pool w Hrun.
  - injection Hrun as <- <-. reflexivity.
  - simpl in Hrun. destruct (pool !! i) as [t|] eqn:Hi; [|eauto].
    unfold bind in Hrun. destruct (stmt t w) as [t1 w1|] eqn:Hs; [|discriminate].
    rewrite (IH _ _ Hrun), (counted_all_insert pool i t t1 Hi).
    pose proof (stmt_counted t t1 w w1 Hs). lia.
Qed.

Lemma interleave_step (i : nat) (sch : list nat) (pool : list Pc) (t : Pc) (w : World) :
  pool !! i = Some t ->
  interleave (i :: sch) pool w =
  match stmt t w with
  | Ok t' w' => interleave sch (<[i := t']> pool) w'
  | Panic w' => Panic w'
  end.
Proof. intros H. simpl. rewrite H. reflexivity. Qed.

Lemma Add_in_pool (i : nat) (sch : list nat) (pool : list Pc) (s : string) (w : World) :
  pool !! i = Some (call_Add s) ->
  interleave ([i; i; i; i] ++ sch) pool w =
  match Add s w with
  | Ok a w1 => interleave sch (<[i := AtReturn a]> pool) w1
  | Panic w1 => Panic w1
  end.
Proof.
  intros Hi. pose proof (lookup_lt_Some _ _ _ Hi) as Hlt.
  rewrite Add_eq. cbn [app].
  rewrite (interleave_step _ _ _ _ _ Hi).
  unfold call_Add. cbn [stmt]. unfold bind, wg_Add, ret.
  destruct (wg w + 1 <? 0); [reflexivity|].
  rewrite (interleave_step i _ _ (AtNew s))
    by (apply list_lookup_insert_eq; exact Hlt).
  cbn [stmt]. unfold bind, new_Worker, ret.
  rewrite list_insert_insert_eq.
  rewrite (interleave_step i _ _ (AtLoad _))
    by (apply list_lookup_insert_eq; exact Hlt).
  cbn [stmt]. unfold bind, get, ret.
  rewrite list_insert_insert_eq.
  rewrite (interleave_step i _ _ (AtStore _ _))
    by (apply list_lookup_insert_eq; exact Hlt).
  cbn [stmt]. unfold bind, modify, ret.
  rewrite list_insert_insert_eq.
  reflexivity.
Qed.

Lemma serial_S (first n : nat) :
  serial first (S n) = [first; first; first; first] ++ serial (S first) n.
Proof. reflexivity. Qed.

(** Calls of [Add] that do not overlap are the calls made one after the
    other. *)
Lemma serial_is_Adds (names : list string) (pre : list Pc) (w : World) :
  interleave (serial (length pre) (length names)) (pre ++ map call_Add names) w =
  (l <- Adds names ;; ret (pre ++ map AtReturn l)) w.
Proof.
  revert pre w. induction names as [|s names IH]; intros pre w.
  - simpl. unfold bind, ret. reflexivity.
  - cbn [length map]. rewrite serial_S.
    rewrite (Add_in_pool _ _ _ s) by (apply list_lookup_middle; reflexivity).
    cbn [Adds]. unfold bind at 1. unfold bind at 1.
    destruct (Add s w) as [a w1|]; [|reflexivity].
    replace (<[length pre := AtReturn a]> (pre ++ call_Add s :: map call_Add names))
      with ((pre ++ [AtReturn a]) ++ map call_Add names).
    2:{ rewrite <- app_assoc. simpl.
        rewrite <- (Nat.add_0_r (length pre)) at 1.
        rewrite insert_app_r. reflexivity. }
    replace (S (length pre)) with (length (pre ++ [AtReturn a]))
      by (rewrite length_app; simpl; lia).
    rewrite IH. unfold bind, ret.
    destruct (Adds names w1) as [l w2|]; [|reflexivity].
    rewrite <- app_assoc. reflexivity.
Qed.

Lemma Adds_spec (names : list string) (w : World) :
  0 <= wg w ->
  exists w2,
    Adds names w = Ok (seq (length (heap w)) (length names)) w2 /\
    Workers w2 = Workers w ++ seq (length (heap w)) (length names) /\
    heap w2 = heap w ++ map (fun s => mkWorker Pending s true) names /\
    wg w2 = wg w + Z.of_nat (length names).
Proof.
  revert w. induction names as [|s names IH]; intros w Hwg.
  - exists w. simpl. unfold ret. rewrite !app_nil_r. repeat split. lia.
  - cbn [Adds]. unfold bind at 1. rewrite Add_eq.
    destruct (wg w + 1 <? 0) eqn:Hneg; [apply Z.ltb_lt in Hneg; lia|].
    destruct (IH (added_to s w)) as (w2 & Hrun & HW & Hh & Hg); [simpl; lia|].
    exists w2. unfold bind, ret. rewrite Hrun. simpl in *.
    rewrite length_app in *. simpl in *. rewrite Nat.add_1_r in *.
    repeat split.
    + rewrite HW, <- app_assoc. reflexivity.
    + rewrite Hh, <- app_assoc. reflexivity.
    + lia.
Qed.

(** C8, as the code has it: the counter is safely updated by goroutines
    that overlap, since [Add] raises it and [Done] and [Fail] lower it in one
    atomic operation of the wait group each, so no interleaving of their
    statements loses an update; the append to the slice is a read followed by
    a write with no lock, and it keeps every task, in call order, when the
    calls of [Add] do not overlap. *)
Theorem counter_atomic_append_serial
    (names : list string) (sch : list nat) (pool pool' : list Pc) (w w' : World) :
  0 <= wg w ->
  interleave sch pool w = Ok pool' w' ->
  wg w' - counted_all pool' = wg w - counted_all pool /\
  exists w2,
    interleave (serial 0 (length names)) (map call_Add names) w =
      Ok (map AtReturn (seq (length (heap w)) (length names))) w2 /\
    Workers w2 = Workers w ++ seq (length (heap w)) (length names) /\
    map Name (heap w2) = map Name (heap w) ++ names /\
    wg w2 = wg w + Z.of_nat (length names).
Proof.
  intros Hwg Hrun. split; [exact (interleave_counted _ _ _ _ _ Hrun)|].
  destruct (Adds_spec names w Hwg) as (w2 & HA & HW & Hh & Hg).
  exists w2. split; [|split; [exact HW|split; [|exact Hg]]].
  - pose proof (serial_is_Adds names [] w) as Hs. simpl in Hs.
    rewrite Hs. unfold bind, ret. rewrite HA. reflexivity.
  - rewrite Hh, map_app, map_map. simpl. rewrite map_id. reflexivity.
Qed.

(** Two calls of [Add] and a call of [Done] that overlap in their wait-group
    steps only: the counter is exact; and the two calls of [Add] one after
    the other keep both tasks. *)
Lemma counter_atomic_append_serial_witness :
  exists pool' w' w2,
    interleave [0; 2; 1; 2; 0; 0; 0; 1; 1; 1]%nat
               [call_Add "b"; call_Add "c"; call_Done 0%nat]
               (world_of (Add "a" (New Box1 true))) = Ok pool' w' /\
    wg w' = 2 /\
    interleave (serial 0 2) [call_Add "b"; call_Add "c"]
               (world_of (Add "a" (New Box1 true))) = Ok [AtReturn 1; AtReturn 2]%nat w2 /\
    Workers w2 = [0; 1; 2]%nat.
Proof.
  destruct (counter_atomic_append_serial ["b"; "c"]
              [0; 2; 1; 2; 0; 0; 0; 1; 1; 1]%nat
              [call_Add "b"; call_Add "c"; call_Done 0%nat] _
              (world_of (Add "a" (New Box1 true))) _
              ltac:(vm_compute; discriminate) ltac:(vm_compute; reflexivity))
    as (Hc & w2 & Hs & HW & _).
  eexists _, _, w2. split; [vm_compute; reflexivity|].
  split; [vm_compute; reflexivity|]. split; [exact Hs | exact HW].
Defined.

(** C8, as stated, at two calls of [Add] that overlap: both goroutines read
    the empty slice before either writes it, the second write replaces the
    first, and the task of the first call is lost from the slice (and from
    every repaint) although its handle was returned and the counter counts
    it. *)
Lemma overlapping_Add_loses_task :
  exists w,
    interleave [0; 0; 0; 1; 1; 1; 0; 1]%nat [call_Add "a"; call_Add "b"]
               (New Box1 true) = Ok [AtReturn 0; AtReturn 1]%nat w /\
    Workers w = [1%nat] /\ length (heap w) = 2%nat /\ wg w = 2 /\
    task_lines w = [line "⠋" "b"].
Proof.
  eexists. split; [vm_compute; reflexivity|].
  repeat split; vm_compute; reflexivity.
Qed.

(** C5, as stated, at two calls of [Add] that overlap: the first goroutine
    reads the empty slice, the second makes its whole call, and the write of
    the first replaces the slice; both calls returned a handle, and a repaint
    writes a single line, none for the task of the second call. *)
Lemma overlapping_Adds_one_line :
  exists w,
    interleave [0; 0; 0; 1; 1; 1; 1; 0]%nat [call_Add "a"; call_Add "b"]
               (New Box1 false) = Ok [AtReturn 0; AtReturn 1]%nat w /\
    map Name (heap w) = ["a"; "b"] /\
    Workers w = [0%nat] /\
    written true w = [line "-" "a"].
Proof.
  eexists. split; [vm_compute; reflexivity|].
  repeat split; vm_compute; reflexivity.
Qed.

End InterleavingFacts.

(** ** The counter along a run *)

Lemma marks_app (tr1 tr2 : list Action) :
  marks (tr1 ++ tr2) = (marks tr1 + marks tr2)%nat.
Proof.
  induction tr1 as [|a tr1 IH]; [reflexivity|].
  destruct a; simpl; rewrite ?IH; reflexivity.
Qed.

Lemma live_counter (sp : Spinner) (tty : bool) (tr : list Action) (c : Config) :
  run tr (start sp tty) = Some c -> crashed c = false ->
  wg (world c) = Z.of_nat (length (added tr)) - Z.of_nat (marks tr).
Proof.
  revert c. induction tr as [|a tr IH] using rev_ind; intros c Hrun Hlive.
  - injection Hrun as <-. reflexivity.
  - apply run_snoc in Hrun as (c1 & Hrun1 & Hstep).
    destruct (run_Inv tr _ c1 Hrun1 (Inv_start sp tty)) as [HI1 _].
    destruct (step_shape a c1 c Hstep HI1) as [Hlive1 Hsh].
    specialize (IH c1 Hrun1 Hlive1).
    rewrite added_app, marks_app, length_app.
    destruct a; simpl added; simpl marks; simpl length.
    + subst c. simpl. lia.
    + destruct Hsh as [-> _]. simpl in *.
      destruct (mark_frame Done Completed a (world c1)) as (_ & _ & _ & _ & _ & _ & _ & H);
        [left; tauto|]. apply H in Hlive. lia.
    + destruct Hsh as [-> _]. simpl in *.
      destruct (mark_frame Fail Failed a (world c1)) as (_ & _ & _ & _ & _ & _ & _ & H);
        [right; tauto|]. apply H in Hlive. lia.
    + subst c. simpl. lia.
    + subst c. simpl. lia.
    + destruct Hsh as [_ ->]. simpl. lia.
    + destruct Hsh as (_ & _ & ->). simpl. lia.
    + destruct Hsh as (_ & _ & ->). cbn [world].
      destruct (repainted_frame true (world c1)) as (_ & _ & -> & _). lia.
    + destruct Hsh as (_ & ->). cbn [world].
      destruct (repainted_frame false (world c1)) as (_ & _ & -> & _). lia.
    + destruct Hsh as (_ & _ & ->). cbn [world].
      destruct (repainted_frame true (world c1)) as (_ & _ & -> & _). lia.
Qed.

(** X1: as long as the process has not panicked, the counter of the wait
    group is the number of calls of [Add] minus the number of calls of [Done]
    and [Fail] made so far, whichever workers were marked and however often;
    so a live process never has more marks than tasks. *)
Theorem counter_is_adds_minus_marks
    (sp : Spinner) (tty : bool) (tr : list Action) (c : Config) :
  run tr (start sp tty) = Some c -> crashed c = false ->
  wg (world c) = Z.of_nat (length (added tr)) - Z.of_nat (marks tr) /\
  (marks tr <= length (added tr))%nat.
Proof.
  intros Hrun Hlive.
  pose proof (live_counter sp tty tr c Hrun Hlive) as Hc.
  destruct (run_Inv tr _ c Hrun (Inv_start sp tty)) as [HI _].
  pose proof (inv_wg c HI Hlive). split; [exact Hc | lia].
Qed.

Lemma counter_is_adds_minus_marks_witness :
  exists c,
    run [AAdd "a"; AAdd "b"; AAdd "c"; ADone 1%nat; APrint; AFail 1%nat] (start Box1 true)
      = Some c /\
    wg (world c) = 1.
Proof.
  eexists. split; [vm_compute; reflexivity|].
  destruct (counter_is_adds_minus_marks Box1 true
              [AAdd "a"; AAdd "b"; AAdd "c"; ADone 1%nat; APrint; AFail 1%nat] _
              ltac:(vm_compute; reflexivity) ltac:(vm_compute; reflexivity)) as [H _].
  vm_compute in H. vm_compute. exact H.
Defined.

(** ** Orderly use *)

Lemma Kept_add (done : list addr) (h : list Worker) (g : Z) (p : WaiterPc) (s : string) :
  Kept done false h g p ->
  Kept done false (h ++ [mkWorker Pending s true]) (g + 1) p.
Proof.
  intros [K1 K2 K3 K4 K5]. split.
  - intros b u Hu. destruct (decide (b < length h)%nat) as [Hlt|Hge].
    + rewrite lookup_app_l in Hu by exact Hlt. auto.
    + assert (existsb (Nat.eqb b) done = false) as Hnb.
      { destruct (existsb (Nat.eqb b) done) eqn:Hb; [|reflexivity].
        apply K5 in Hb. contradiction. }
      rewrite Hnb. rewrite lookup_app_r in Hu by lia.
      destruct (b - length h)%nat; simpl in Hu; [|discriminate].
      injection Hu as <-. auto.
  - rewrite pending_count_app, K2. simpl. lia.
  - discriminate.
  - exact K4.
  - intros b Hb. apply K5 in Hb. rewrite length_app. simpl. lia.
Qed.

Lemma mark_orderly (done : list addr) (m : addr -> M unit) (s : WorkerState)
      (a : addr) (w : World) :
  (m = Done /\ s = Completed) \/ (m = Fail /\ s = Failed) ->
  Kept done false (heap w) (wg w) NotSpawned ->
  (a < length (heap w))%nat -> existsb (Nat.eqb a) done = false ->
  panicked (m a w) = false /\
  length (heap (world_of (m a w))) = length (heap w) /\
  Kept (a :: done) false (heap (world_of (m a w))) (wg (world_of (m a w))) NotSpawned.
Proof.
  intros Hm HK Hlt Hfresh.
  destruct (lookup_lt_is_Some_2 _ _ Hlt) as [v Hv].
  destruct (kept_state _ _ _ _ _ HK a v Hv) as [Hp Hst]. rewrite Hfresh in Hst.
  assert (1 <= wg w) as Hwg.
  { rewrite (kept_wg _ _ _ _ _ HK).
    assert (Active v = true) as Hact by (unfold Active; rewrite Hst; reflexivity).
    pose proof (pending_count_insert (heap w) a v (mkWorker Completed (Name v) true)
                  Hv Hact eq_refl). lia. }
  destruct (mark_effect m s a v w Hm Hv Hp) as (_ & _ & Hpan).
  assert (panicked (m a w) = false) as Hlive.
  { rewrite Hpan. apply Z.ltb_ge. lia. }
  split; [exact Hlive|]. split.
  - destruct (mark_frame m s a w Hm) as (_ & Hlen & _). exact Hlen.
  - apply (Kept_mark done false m s); auto.
Qed.

Lemma run_orderly (tr : list Action) (n : nat) (done : list addr) (c c' : Config) :
  run tr c = Some c' -> Inv c -> crashed c = false ->
  Kept done false (heap (world c)) (wg (world c)) NotSpawned ->
  length (heap (world c)) = n ->
  orderly_from n done tr = true ->
  crashed c' = false /\
  exists done', Kept done' false (heap (world c')) (wg (world c')) NotSpawned.
Proof.
  revert n done c.
  induction tr as [|a tr IH]; intros n done c Hrun HI Hlive HK Hn Hord.
  - injection Hrun as <-. eauto.
  - simpl in Hrun. destruct (step a c) as [c1|] eqn:Hstep; [|discriminate].
    destruct (step_Inv a c c1 Hstep HI) as [HI1 _].
    destruct (step_shape a c c1 Hstep HI) as [_ Hsh].
    destruct a; simpl in Hord.
    + subst c1. apply (IH (S n) done _ Hrun HI1); auto.
      * simpl. by apply Kept_add.
      * simpl. rewrite length_app. simpl. lia.
    + apply andb_prop in Hord as [Hok Hord]. apply andb_prop in Hok as [Hlt Hfresh].
      apply Nat.ltb_lt in Hlt. apply negb_true_iff in Hfresh. rewrite <- Hn in Hlt.
      destruct Hsh as [-> _].
      destruct (mark_orderly done Done Completed a (world c)) as (H1 & H2 & H3); auto.
      apply (IH n (a :: done) _ Hrun HI1); auto. simpl. congruence.
    + apply andb_prop in Hord as [Hok Hord]. apply andb_prop in Hok as [Hlt Hfresh].
      apply Nat.ltb_lt in Hlt. apply negb_true_iff in Hfresh. rewrite <- Hn in Hlt.
      destruct Hsh as [-> _].
      destruct (mark_orderly done Fail Failed a (world c)) as (H1 & H2 & H3); auto.
      apply (IH n (a :: done) _ Hrun HI1); auto. simpl. congruence.
    + subst c1. apply (IH n done _ Hrun HI1); auto.
    + subst c1. apply (IH n done _ Hrun HI1); auto.
    + destruct Hsh as [_ ->]. apply (IH n done _ Hrun HI1); auto.
    + destruct Hsh as (_ & _ & ->). apply (IH n done _ Hrun HI1); auto.
    + destruct Hsh as (_ & _ & ->).
      pose proof (repainted_frame true (world c)) as (Hh & _ & Hg & _).
      apply (IH n done _ Hrun HI1); cbn [world crashed]; rewrite ?Hh, ?Hg; auto.
    + destruct Hsh as (_ & ->).
      pose proof (repainted_frame false (world c)) as (Hh & _ & Hg & _).
      apply (IH n done _ Hrun HI1); cbn [world crashed]; rewrite ?Hh, ?Hg; auto.
    + destruct Hsh as (_ & _ & ->).
      pose proof (repainted_frame true (world c)) as (Hh & _ & Hg & _).
      apply (IH n done _ Hrun HI1); cbn [world crashed]; rewrite ?Hh, ?Hg; auto.
Qed.

Lemma Kept_start_plain (sp : Spinner) (tty : bool) :
  Kept [] false (heap (world (start sp tty))) (wg (world (start sp tty))) NotSpawned.
Proof. split; simpl; try discriminate; auto. Qed.




(** ** Ways out of [Print] *)

Lemma step_waiter_ok (a : Action) (c c' : Config) :
  step a c = Some c' -> Inv c -> any_action a = true ->
  waiter_ok c -> waiter_ok c'.
Proof.
  intros Hstep HI _ [H0 H1]. unfold waiter_ok, printing in *.
  destruct (step_shape a c c' Hstep HI) as [_ Hsh].
  destruct a.
  - subst c'. simpl. auto.
  - destruct Hsh as [_ (-> & -> & _)]. auto.
  - destruct Hsh as [_ (-> & -> & _)]. auto.
  - subst c'. simpl. auto.
  - subst c'. simpl. auto.
  - destruct Hsh as [_ ->]. simpl. split; [|auto].
    destruct (isTerminal (world c)); discriminate.
  - destruct Hsh as (Hw & _ & ->). simpl. split; [|auto].
    intros Hn. apply H0 in Hn. congruence.
  - destruct Hsh as (_ & _ & ->). simpl. split; [discriminate|].
    intros [H|H]; discriminate.
  - destruct Hsh as (Hi & ->). simpl. split; [discriminate|]. intros _. auto.
  - destruct Hsh as (_ & _ & ->). simpl. split; [discriminate|].
    intros [H|H]; discriminate.
Qed.

Lemma run_waiter_ok (sp : Spinner) (tty : bool) (tr : list Action) (c : Config) :
  run tr (start sp tty) = Some c -> waiter_ok c.
Proof.
  intros Hrun.
  apply (run_preserves waiter_ok _ step_waiter_ok tr _ c Hrun
           (Inv_start sp tty) (forallb_any tr)).
  split; [reflexivity|]. intros [H|H]; discriminate.
Qed.

Lemma step_recv (w : World) (m : MainPc) :
  wf w -> m = InLoop \/ m = Blocked ->
  step ARecvDone (mkConfig w m Sending false) =
  Some (mkConfig (repainted true w) Returned Finished false).
Proof.
  intros Hwf [-> | ->]; unfold step; cbn [crashed world mainPc waiterPc];
    rewrite print_spec by exact Hwf; reflexivity.
Qed.

Lemma step_wait (w : World) (m : MainPc) :
  wg w = 0 ->
  step AWait (mkConfig w m Waiting false) = Some (mkConfig w m Sending false).
Proof.
  intros Hz. unfold step. cbn [crashed world mainPc waiterPc]. rewrite Hz. reflexivity.
Qed.

Lemma step_ctx (w : World) (t : WaiterPc) :
  wf w -> ctxDone w = true ->
  step ASelCtx (mkConfig w InLoop t false) =
  Some (mkConfig (repainted true w) Returned t false).
Proof.
  intros Hwf Hc. unfold step. cbn [crashed world mainPc waiterPc]. rewrite Hc.
  rewrite print_spec by exact Hwf. reflexivity.
Qed.

Lemma step_tick (w : World) (t : WaiterPc) :
  wf w ->
  step ASelTick (mkConfig w InLoop t false) =
  Some (mkConfig (repainted false w) InLoop t false).
Proof.
  intros Hwf. unfold step. cbn [crashed world mainPc waiterPc].
  rewrite print_spec by exact Hwf. reflexivity.
Qed.

(** X3: a running [Print] is never stuck when it should end.  Once the
    counter is zero (or the waiter has already seen it at zero) the waiter
    and [Print] can complete the hand-over and [Print] returns; on a terminal
    a cancelled context lets [Print] return at once, whatever the counter;
    and on a terminal the timer case is always there.  None of these
    repaints panics. *)
Theorem print_can_return
    (sp : Spinner) (tty : bool) (tr : list Action) (c : Config) :
  run tr (start sp tty) = Some c -> crashed c = false -> printing c ->
  (wg (world c) = 0 \/ waiterPc c = Sending ->
   exists sch c', (sch = [ARecvDone] \/ sch = [AWait; ARecvDone]) /\
     run sch c = Some c' /\ mainPc c' = Returned /\ crashed c' = false) /\
  (mainPc c = InLoop -> ctxDone (world c) = true ->
   exists c', step ASelCtx c = Some c' /\ mainPc c' = Returned /\ crashed c' = false) /\
  (mainPc c = InLoop ->
   exists c', step ASelTick c = Some c' /\ mainPc c' = InLoop /\ crashed c' = false).
Proof.
  intros Hrun Hlive Hpr.
  destruct (run_Inv tr _ c Hrun (Inv_start sp tty)) as [HI _].
  pose proof (Inv_wf c HI) as Hwf.
  destruct (run_waiter_ok sp tty tr c Hrun) as [_ Hw]. specialize (Hw Hpr).
  unfold printing in *. destruct c as [w m t cr]. simpl in *. subst cr.
  split; [|split].
  - intros Hz. destruct Hw as [-> | ->].
    + destruct Hz as [Hz|Hz]; [|discriminate].
      exists [AWait; ARecvDone]. eexists. split; [auto|].
      cbn [run]. rewrite (step_wait w m Hz), (step_recv w m Hwf Hpr).
      repeat split.
    + exists [ARecvDone]. eexists. split; [auto|].
      cbn [run]. rewrite (step_recv w m Hwf Hpr). repeat split.
  - intros -> Hc. eexists. rewrite (step_ctx w t Hwf Hc). repeat split.
  - intros ->. eexists. rewrite (step_tick w t Hwf). repeat split.
Qed.

Lemma print_can_return_witness :
  exists c c',
    run [AAdd "a"; APrint; ACancel] (start Box1 true) = Some c /\
    step ASelCtx c = Some c' /\ mainPc c' = Returned.
Proof.
  eexists.
  destruct (print_can_return Box1 true [AAdd "a"; APrint; ACancel] _
              ltac:(vm_compute; reflexivity) ltac:(vm_compute; reflexivity)
              ltac:(left; vm_compute; reflexivity)) as (_ & H & _).
  destruct (H ltac:(vm_compute; reflexivity) ltac:(vm_compute; reflexivity))
    as (c' & H1 & H2 & _).
  exists c'. split; [vm_compute; reflexivity|]. split; [exact H1 | exact H2].
Defined.

Lemma sending_split (sp : Spinner) (tty : bool) (tr : list Action) (c : Config) :
  run tr (start sp tty) = Some c -> waiterPc c = Sending ->
  exists tr0 tr1 c0,
    tr = tr0 ++ AWait :: tr1 /\ run tr0 (start sp tty) = Some c0 /\
    crashed c0 = false /\ waiterPc c0 = Waiting /\ wg (world c0) = 0.
Proof.
  revert c. induction tr as [|a tr IH] using rev_ind; intros c Hrun Hs.
  - injection Hrun as <-. discriminate.
  - apply run_snoc in Hrun as (c1 & Hrun1 & Hstep).
    destruct (run_Inv tr _ c1 Hrun1 (Inv_start sp tty)) as [HI1 _].
    destruct (step_shape a c1 c Hstep HI1) as [Hlive1 Hsh].
    assert (a = AWait \/ waiterPc c1 = Sending) as [-> | Hs1].
    { destruct a; auto; right.
      - subst c. exact Hs.
      - destruct Hsh as [_ (_ & <- & _)]. exact Hs.
      - destruct Hsh as [_ (_ & <- & _)]. exact Hs.
      - subst c. exact Hs.
      - subst c. exact Hs.
      - destruct Hsh as [_ ->]. discriminate.
      - destruct Hsh as (_ & _ & ->). exact Hs.
      - destruct Hsh as (_ & ->). exact Hs.
      - destruct Hsh as (_ & _ & ->). discriminate. }
    + destruct Hsh as (Hw & Hz & _). exists tr, [], c1. auto.
    + destruct (IH c1 Hrun1 Hs1) as (tr0 & tr1 & c0 & -> & H).
      exists tr0, (tr1 ++ [a]), c0. rewrite <- app_assoc. simpl. auto.
Qed.

(** X4: [Print] returns through the completion case only if, at some moment
    after it was entered, the counter was zero, that is, every call of [Add]
    made until then had been matched by a call of [Done] or [Fail]. *)
Theorem completion_means_counter_was_zero
    (sp : Spinner) (tty : bool) (tr : list Action) (c c' : Config) :
  run tr (start sp tty) = Some c -> step ARecvDone c = Some c' ->
  exists tr0 tr1 c0,
    tr = tr0 ++ AWait :: tr1 /\ run tr0 (start sp tty) = Some c0 /\
    mainPc c0 <> NotCalled /\ wg (world c0) = 0 /\
    length (added tr0) = marks tr0.
Proof.
  intros Hrun Hstep.
  destruct (run_Inv tr _ c Hrun (Inv_start sp tty)) as [HI _].
  destruct (step_shape _ _ _ Hstep HI) as [_ (_ & Hs & _)].
  destruct (sending_split sp tty tr c Hrun Hs)
    as (tr0 & tr1 & c0 & -> & Hrun0 & Hlive0 & Hw0 & Hz).
  exists tr0, tr1, c0. repeat split; auto.
  - intros Hn. destruct (run_waiter_ok sp tty tr0 c0 Hrun0) as [H0 _].
    apply H0 in Hn. congruence.
  - pose proof (live_counter sp tty tr0 c0 Hrun0 Hlive0). lia.
Qed.

Lemma completion_means_counter_was_zero_witness :
  exists tr0 tr1,
    [AAdd "a"; APrint; ASelTick; ADone 0%nat; AWait; AAdd "b"] = tr0 ++ AWait :: tr1 /\
    length (added tr0) = marks tr0.
Proof.
  destruct (completion_means_counter_was_zero Box1 true
              [AAdd "a"; APrint; ASelTick; ADone 0%nat; AWait; AAdd "b"] _ _
              ltac:(vm_compute; reflexivity) ltac:(vm_compute; reflexivity))
    as (tr0 & tr1 & _ & H1 & _ & _ & _ & H2).
  exists tr0, tr1. split; [exact H1 | exact H2].
Defined.

(** ** The spinner *)

Lemma repainted_spinner (end_ : bool) (w : World) :
  spinner (repainted end_ w) =
  if isTerminal w then mkSpinner (frames (spinner w)) (S (pos (spinner w)))
  else spinner w.
Proof. unfold repainted. destruct (isTerminal w); reflexivity. Qed.

Lemma run_spinner (sp : Spinner) (tty : bool) (tr : list Action) (c : Config) :
  run tr (start sp tty) = Some c -> tty_const tty tr = true ->
  spinner (world c) =
  mkSpinner (frames sp) (pos sp + if tty then repaints tr else 0).
Proof.
  revert c. induction tr as [|a tr IH] using rev_ind; intros c Hrun Hconst.
  - injection Hrun as <-. destruct tty, sp; simpl; rewrite Nat.add_0_r; reflexivity.
  - apply run_snoc in Hrun as (c1 & Hrun1 & Hstep).
    apply tty_const_app in Hconst as [Hconst1 _].
    destruct (run_Inv tr _ c1 Hrun1 (Inv_start sp tty)) as [HI1 _].
    destruct (run_mode tty tr _ c1 Hrun1 (Inv_start sp tty) Hconst1 (mode_start sp tty))
      as [Hterm _].
    destruct (step_shape a c1 c Hstep HI1) as [_ Hsh].
    specialize (IH c1 Hrun1 Hconst1). rewrite repaints_snoc.
    destruct a; simpl is_repaint; rewrite ?Nat.add_0_r.
    + subst c. exact IH.
    + destruct Hsh as [_ (_ & _ & _ & _ & _ & _ & Hs)]. congruence.
    + destruct Hsh as [_ (_ & _ & _ & _ & _ & _ & Hs)]. congruence.
    + subst c. exact IH.
    + subst c. exact IH.
    + destruct Hsh as [_ ->]. exact IH.
    + destruct Hsh as (_ & _ & ->). exact IH.
    + destruct Hsh as (_ & _ & ->). cbn [world].
      rewrite repainted_spinner, Hterm, IH. destruct tty; simpl; [f_equal; lia | reflexivity].
    + destruct Hsh as (_ & ->). cbn [world].
      rewrite repainted_spinner, Hterm, IH. destruct tty; simpl; [f_equal; lia | reflexivity].
    + destruct Hsh as (_ & _ & ->). cbn [world].
      rewrite repainted_spinner, Hterm, IH. destruct tty; simpl; [f_equal; lia | reflexivity].
Qed.

(** X5: on a terminal the spinner advances by exactly one frame per repaint
    (not per pending task), so the pending glyph of the next repaint is the
    frame numbered by the repaints made so far, and the frames wrap around;
    off a terminal the spinner is never advanced and the pending glyph is the
    dash. *)
Theorem spinner_one_frame_per_repaint
    (sp : Spinner) (tty : bool) (tr : list Action) (c : Config) :
  run tr (start sp tty) = Some c -> tty_const tty tr = true ->
  spinner (world c) =
    mkSpinner (frames sp) (pos sp + if tty then repaints tr else 0) /\
  glyph_in (world c) Pending =
    (if tty
     then nth (Nat.modulo (pos sp + repaints tr) (length (frames sp))) (frames sp)
              EmptyString
     else "-") /\
  frame (set_spinner (mkSpinner (frames sp) (pos sp + repaints tr + length (frames sp)))
                     (world c)) =
  frame (set_spinner (mkSpinner (frames sp) (pos sp + repaints tr)) (world c)).
Proof.
  intros Hrun Hconst.
  pose proof (run_spinner sp tty tr c Hrun Hconst) as Hs.
  destruct (run_mode tty tr _ c Hrun (Inv_start sp tty) Hconst (mode_start sp tty))
    as [Hterm _].
  split; [exact Hs|]. split.
  - unfold glyph_in, frame. rewrite Hterm, Hs. destruct tty; reflexivity.
  - unfold frame. simpl. f_equal.
    rewrite <- (Nat.mul_1_l (length (frames sp))) at 1.
    apply Nat.Div0.mod_add.
Qed.

Lemma spinner_one_frame_per_repaint_witness :
  exists c,
    run [AAdd "a"; APrint; ASelTick; ASelTick; ASelTick] (start Box1 true) = Some c /\
    pos (spinner (world c)) = 3%nat /\ glyph_in (world c) Pending = "⠸".
Proof.
  eexists. split; [vm_compute; reflexivity|].
  destruct (spinner_one_frame_per_repaint Box1 true
              [AAdd "a"; APrint; ASelTick; ASelTick; ASelTick] _
              ltac:(vm_compute; reflexivity) ltac:(vm_compute; reflexivity))
    as (H1 & H2 & _).
  split; [vm_compute; reflexivity|]. vm_compute in H2. vm_compute. exact H2.
Defined.

(** ** The cursor while [Print] runs *)

Lemma wipe_not_show (n : nat) : wipe n <> show_cursor.
Proof. destruct n; unfold wipe; simpl; discriminate. Qed.

Lemma line_not_show (p name : string) : line p name <> show_cursor.
Proof. unfold line. simpl. discriminate. Qed.

Lemma up_not_show (n : nat) : Repeat cursor_up n <> show_cursor.
Proof. destruct n; simpl; discriminate. Qed.

Lemma repaint_false_no_show (w : World) :
  Forall (fun s => s <> show_cursor) (repaint false w).
Proof.
  assert (Forall (fun s => s <> show_cursor) (task_lines w)) as Hl.
  { unfold task_lines. apply Forall_forall. intros s Hs.
    apply list_elem_of_In, in_map_iff in Hs as (v & <- & _). apply line_not_show. }
  unfold repaint. destruct (isTerminal w); [|exact Hl].
  constructor; [apply wipe_not_show|]. apply Forall_app. split; [exact Hl|].
  constructor; [discriminate|]. constructor; [apply up_not_show | constructor].
Qed.

Lemma run_no_show (tr : list Action) (c c' : Config) :
  run tr c = Some c' -> Inv c ->
  (mainPc c <> Returned -> Forall (fun s => s <> show_cursor) (stdout (world c))) ->
  mainPc c' <> Returned -> Forall (fun s => s <> show_cursor) (stdout (world c')).
Proof.
  revert c. induction tr as [|a tr IH]; intros c Hrun HI HP Hn.
  - injection Hrun as <-. auto.
  - simpl in Hrun. destruct (step a c) as [c1|] eqn:Hstep; [|discriminate].
    destruct (step_Inv a c c1 Hstep HI) as [HI1 _].
    destruct (step_shape a c c1 Hstep HI) as [_ Hsh].
    apply (IH c1 Hrun HI1); [|exact Hn]. clear IH Hrun Hn.
    destruct a.
    + subst c1. exact HP.
    + destruct Hsh as [_ (-> & _ & _ & -> & _)]. exact HP.
    + destruct Hsh as [_ (-> & _ & _ & -> & _)]. exact HP.
    + subst c1. exact HP.
    + subst c1. exact HP.
    + destruct Hsh as [Hm ->]. simpl. intros _. apply HP. congruence.
    + destruct Hsh as (_ & _ & ->). exact HP.
    + destruct Hsh as (_ & _ & ->). simpl. contradiction.
    + destruct Hsh as (Hm & ->). cbn [world mainPc]. intros _.
      destruct (repainted_frame false (world c)) as (_ & _ & _ & _ & _ & ->).
      apply Forall_app. split; [apply HP; congruence | apply repaint_false_no_show].
    + destruct Hsh as (_ & _ & ->). simpl. contradiction.
Qed.

Lemma run_hidden (sp : Spinner) (tr : list Action) (c : Config) :
  run tr (start sp true) = Some c -> tty_const true tr = true ->
  (mainPc c = NotCalled -> repaints tr = 0%nat) /\
  (mainPc c = InLoop -> (0 < repaints tr)%nat ->
   exists pre n, stdout (world c) = pre ++ [hide_cursor; Repeat cursor_up n]).
Proof.
  revert c. induction tr as [|a tr IH] using rev_ind; intros c Hrun Hconst.
  - injection Hrun as <-. simpl. split; [auto | lia].
  - apply run_snoc in Hrun as (c1 & Hrun1 & Hstep).
    apply tty_const_app in Hconst as [Hconst1 _].
    destruct (run_Inv tr _ c1 Hrun1 (Inv_start sp true)) as [HI1 _].
    destruct (run_mode true tr _ c1 Hrun1 (Inv_start sp true) Hconst1 (mode_start sp true))
      as [Hterm _].
    destruct (step_shape a c1 c Hstep HI1) as [_ Hsh].
    destruct (IH c1 Hrun1 Hconst1) as [IH0 IH1]. rewrite repaints_snoc.
    destruct a; simpl is_repaint; rewrite ?Nat.add_0_r.
    + subst c. auto.
    + destruct Hsh as [_ (-> & _ & _ & -> & _)]. auto.
    + destruct Hsh as [_ (-> & _ & _ & -> & _)]. auto.
    + subst c. auto.
    + subst c. auto.
    + destruct Hsh as [Hm ->]. simpl. rewrite Hterm. split; [discriminate|].
      intros _ Hpos. apply IH0 in Hm. lia.
    + destruct Hsh as (_ & _ & ->). auto.
    + destruct Hsh as (_ & _ & ->). simpl. split; discriminate.
    + destruct Hsh as (Hm & ->). cbn [world mainPc]. split; [discriminate|].
      intros _ _.
      destruct (repainted_frame false (world c1)) as (_ & _ & _ & _ & _ & ->).
      unfold repaint. rewrite Hterm.
      exists (stdout (world c1) ++ wipe (length (Workers (world c1)))
                :: task_lines (world c1)), (length (Workers (world c1))).
      rewrite <- app_assoc. reflexivity.
    + destruct Hsh as (_ & _ & ->). simpl. split; discriminate.
Qed.

(** X12: show-cursor is written by the final repaint only: as long as
    [Print] has not returned, no write to standard output is the show-cursor
    sequence; and on a terminal, between two repaints of the loop, the last
    writes are hide-cursor and the cursor-up that goes back to the top of the
    block, so a process that dies during the loop leaves the cursor hidden. *)
Theorem cursor_hidden_while_printing
    (sp : Spinner) (tty : bool) (tr : list Action) (c : Config) :
  run tr (start sp tty) = Some c -> mainPc c <> Returned ->
  Forall (fun s => s <> show_cursor) (stdout (world c)) /\
  (tty = true -> tty_const true tr = true -> (0 < repaints tr)%nat ->
   exists pre n, stdout (world c) = pre ++ [hide_cursor; Repeat cursor_up n]).
Proof.
  intros Hrun Hn. split.
  - apply (run_no_show tr _ c Hrun (Inv_start sp tty)); [|exact Hn].
    intros _. constructor.
  - intros -> Hconst Hpos.
    destruct (run_hidden sp tr c Hrun Hconst) as [H0 H1].
    destruct (run_mode true tr _ c Hrun (Inv_start sp true) Hconst (mode_start sp true))
      as (_ & _ & Hb).
    destruct (mainPc c) eqn:Hm; try contradiction.
    + specialize (H0 eq_refl). lia.
    + auto.
    + specialize (Hb eq_refl). discriminate.
Qed.

Lemma cursor_hidden_while_printing_witness :
  exists c pre n,
    run [AAdd "a"; AAdd "b"; APrint; ASelTick; ADone 0%nat; ADone 0%nat; ADone 0%nat]
        (start Box1 true) = Some c /\
    crashed c = true /\
    stdout (world c) = pre ++ [hide_cursor; Repeat cursor_up n].
Proof.
  eexists.
  destruct (cursor_hidden_while_printing Box1 true
     [AAdd "a"; AAdd "b"; APrint; ASelTick; ADone 0%nat; ADone 0%nat; ADone 0%nat] _
     ltac:(vm_compute; reflexivity) ltac:(vm_compute; discriminate)) as [_ H].
  destruct (H eq_refl ltac:(vm_compute; reflexivity) ltac:(vm_compute; lia))
    as (pre & n & Hout).
  exists pre, n. split; [vm_compute; reflexivity|].
  split; [vm_compute; reflexivity | exact Hout].
Defined.

(** ** One repaint on a well-formed set *)

Lemma written_spec (end_ : bool) (w : World) :
  wf w -> written end_ w = repaint end_ w.
Proof.
  intros Hwf. unfold written. rewrite print_spec by exact Hwf.
  destruct (repainted_frame end_ w) as (_ & _ & _ & _ & _ & Ho).
  cbn [world_of]. rewrite Ho. apply drop_app_length.
Qed.



(** ** A repaint on a set with a nil entry *)

Lemma print_range_panic (pre post : list addr) (a : addr) (f c p : string) (w : World) :
  Forall (fun b => is_Some (heap w !! b)) pre -> heap w !! a = None ->
  print_range (pre ++ a :: post) f c p w =
  Panic (set_stdout
           (stdout w ++ map (fun v => line (glyph f c p (State v)) (Name v))
                            (omap (fun b => heap w !! b) pre)) w).
Proof.
  revert w. induction pre as [|b pre IH]; intros w Hall Ha.
  - simpl. unfold bind, deref. rewrite Ha. unfold set_stdout.
    rewrite app_nil_r. by destruct w.
  - inversion Hall as [|? ? [v Hv] Hrest]; subst.
    simpl. unfold bind at 1. unfold deref. rewrite Hv.
    unfold bind at 1. unfold fmt_Print, modify.
    rewrite IH by (simpl; assumption).
    simpl. f_equal. unfold set_stdout. simpl.
    rewrite <- app_assoc. reflexivity.
Qed.

(** X9: when the slice holds a nil pointer, [print] panics at that entry:
    the erase phase (on a terminal) and the lines of the entries before it
    are already written, nothing is written for it or after it, neither
    hide-cursor nor show-cursor, and no task is changed. *)
Theorem print_panics_at_nil_entry
    (end_ : bool) (w : World) (pre post : list addr) (a : addr) :
  Workers w = pre ++ a :: post ->
  Forall (fun b => is_Some (heap w !! b)) pre ->
  heap w !! a = None ->
  exists w',
    print end_ w = Panic w' /\
    heap w' = heap w /\ wg w' = wg w /\
    stdout w' =
      stdout w ++ (if isTerminal w then [wipe (length (Workers w))] else []) ++
      map (fun v => line (glyph_in w (State v)) (Name v))
          (omap (fun b => heap w !! b) pre).
Proof.
  intros HW Hall Ha. unfold print, glyph_in.
  unfold bind at 1. unfold IsTerminal, get.
  destruct (isTerminal w) eqn:Htty.
  - unfold bind at 1. unfold bind at 1. unfold get.
    unfold bind at 1. unfold fmt_Print, modify.
    unfold bind at 1. unfold spinner_Next. unfold ret.
    unfold bind at 1. unfold get. simpl Workers.
    unfold bind at 1. rewrite HW.
    rewrite print_range_panic by (simpl; assumption).
    eexists. split; [reflexivity|]. simpl. rewrite <- HW.
    repeat split. rewrite <- app_assoc. reflexivity.
  - unfold ret. unfold bind at 1. unfold bind at 1. unfold get.
    unfold bind at 1. rewrite HW.
    rewrite print_range_panic by assumption.
    eexists. split; [reflexivity|]. simpl. repeat split.
Qed.

Lemma print_panics_at_nil_entry_witness :
  exists w',
    print true (mkWorld [mkWorker Completed "a" true] [0; 7; 0]%nat 1 Box1 [] false false)
      = Panic w' /\
    stdout w' = [line "✔" "a"].
Proof.
  destruct (print_panics_at_nil_entry true
              (mkWorld [mkWorker Completed "a" true] [0; 7; 0]%nat 1 Box1 [] false false)
              [0%nat] [0%nat] 7%nat eq_refl
              ltac:(repeat constructor; by eexists) eq_refl) as (w' & H1 & _ & _ & H2).
  exists w'. split; [exact H1 | exact H2].
Defined.

(** ** Redrawing in place *)

Lemma replay_clean (s : string) (r : Z) (e : list Z) :
  clean s = true -> replay s (mkTerm r e Text) = mkTerm r e Text.
Proof.
  induction s as [|ch s IH]; intros Hc; [reflexivity|].
  simpl in Hc. apply andb_prop in Hc as [Hc Hs]. apply andb_prop in Hc as [Hlf Hesc].
  apply negb_true_iff in Hlf, Hesc.
  cbn [replay]. unfold feed. cbn [parse]. rewrite Hlf, Hesc. auto.
Qed.

Lemma replay_glyph (w : World) (s : WorkerState) (r : Z) (e : list Z) :
  isTerminal w = true -> clean (frame w) = true ->
  replay (glyph_in w s) (mkTerm r e Text) = mkTerm r e Text.
Proof.
  intros Ht Hc. unfold glyph_in, glyph. rewrite Ht.
  destruct (s =? Completed); [reflexivity|].
  destruct (s =? Failed); [reflexivity|]. by apply replay_clean.
Qed.

Lemma replay_line (p name : string) (r : Z) (e : list Z) :
  (forall r e, replay p (mkTerm r e Text) = mkTerm r e Text) ->
  clean name = true ->
  replay (line p name) (mkTerm r e Text) = mkTerm (r + 1) e Text.
Proof.
  intros Hp Hn. unfold line. rewrite !replay_app.
  change (replay "  " (mkTerm r e Text)) with (mkTerm r e Text).
  rewrite Hp.
  change (replay " " (mkTerm r e Text)) with (mkTerm r e Text).
  rewrite (replay_clean name r e Hn). reflexivity.
Qed.

Lemma replay_all_app (ws1 ws2 : list string) (t : Term) :
  replay_all (ws1 ++ ws2) t = replay_all ws2 (replay_all ws1 t).
Proof. unfold replay_all. apply fold_left_app. Qed.

Lemma replay_task_lines (w : World) (vs : list Worker) (r : Z) (e : list Z) :
  isTerminal w = true -> clean (frame w) = true ->
  Forall (fun v => clean (Name v) = true) vs ->
  replay_all (map (fun v => line (glyph_in w (State v)) (Name v)) vs) (mkTerm r e Text) =
  mkTerm (r + Z.of_nat (length vs)) e Text.
Proof.
  intros Ht Hc. revert r. induction vs as [|v vs IH]; intros r Hall.
  - simpl. f_equal. lia.
  - inversion Hall as [|? ? Hv Hrest]; subst.
    cbn [map replay_all fold_left].
    rewrite replay_line; [|intros; by apply replay_glyph|exact Hv].
    fold (replay_all (map (fun v => line (glyph_in w (State v)) (Name v)) vs)
                     (mkTerm (r + 1) e Text)).
    rewrite IH by exact Hrest. f_equal. simpl length. lia.
Qed.

(** X6: a repaint on a terminal redraws in place.  When no task name and no
    spinner frame holds a line feed or an escape byte, the writes of a
    repaint that is not the final one bring the cursor back to the row it
    started on, having erased the rows below it, one per task; the final
    repaint leaves the cursor below the block, one row down per task. *)
Theorem repaint_redraws_in_place (end_ : bool) (w : World) (r : Z) (e : list Z) :
  wf w -> isTerminal w = true -> clean (frame w) = true ->
  Forall (fun v => clean (Name v) = true) (tasks w) ->
  let n := length (Workers w) in
  replay_all (written end_ w) (mkTerm r e Text) =
  mkTerm (if end_ then r + Z.of_nat n else r) (e ++ rows_below r n) Text.
Proof.
  intros Hwf Ht Hc Hall n.
  rewrite (written_spec end_ w Hwf). unfold repaint. rewrite Ht.
  change (wipe (length (Workers w)) :: task_lines w ++
          [hide_cursor; if end_ then show_cursor
                        else Repeat cursor_up (length (Workers w))])
    with ([wipe n] ++ task_lines w ++
          [hide_cursor; if end_ then show_cursor else Repeat cursor_up n]).
  rewrite !replay_all_app. cbn [replay_all fold_left].
  rewrite replay_wipe. unfold task_lines.
  fold (replay_all (map (fun v => line (glyph_in w (State v)) (Name v)) (tasks w))
                   (mkTerm r (e ++ rows_below r n) Text)).
  rewrite replay_task_lines by assumption.
  rewrite (tasks_length w Hwf). fold n.
  change (replay hide_cursor (mkTerm (r + Z.of_nat n) (e ++ rows_below r n) Text))
    with (mkTerm (r + Z.of_nat n) (e ++ rows_below r n) Text).
  destruct end_; [reflexivity|].
  rewrite replay_up. f_equal. lia.
Qed.

Lemma repaint_redraws_in_place_witness :
  let w := world_of (Add "b" (world_of (Add "a" (New Box1 true)))) in
  replay_all (written false w) (mkTerm 3 [] Text) = mkTerm 3 [4; 5] Text /\
  replay_all (written true w) (mkTerm 3 [] Text) = mkTerm 5 [4; 5] Text.
Proof.
  assert (wf (world_of (Add "b" (world_of (Add "a" (New Box1 true)))))) as Hwf.
  { unfold wf. simpl. repeat constructor; by eexists. }
  split.
  - apply (repaint_redraws_in_place false _ 3 [] Hwf);
      [vm_compute; reflexivity | vm_compute; reflexivity |].
    repeat constructor.
  - apply (repaint_redraws_in_place true _ 3 [] Hwf);
      [vm_compute; reflexivity | vm_compute; reflexivity |].
    repeat constructor.
Defined.

(** ** Plain output *)

Lemma no_esc_app (a b : string) : no_esc (a +:+ b) = no_esc a && no_esc b.
Proof.
  induction a as [|ch a IH]; [reflexivity|].
  simpl. rewrite IH. apply andb_assoc.
Qed.

(** X7: off a terminal [print] writes one line per task and nothing else,
    and no write holds an escape byte unless a task name does. *)
Theorem plain_output_has_no_escape (end_ : bool) (w : World) :
  wf w -> isTerminal w = false ->
  Forall (fun v => no_esc (Name v) = true) (tasks w) ->
  length (written end_ w) = length (Workers w) /\
  Forall (fun s => no_esc s = true) (written end_ w).
Proof.
  intros Hwf Ht Hall. rewrite (written_spec end_ w Hwf).
  unfold repaint. rewrite Ht.
  split; [by apply task_lines_length|].
  unfold task_lines. apply Forall_fmap.
  eapply Forall_impl; [exact Hall|]. intros v Hv. simpl.
  unfold line. rewrite !no_esc_app, Hv. unfold glyph_in, glyph. rewrite Ht.
  destruct (State v =? Completed); [reflexivity|].
  destruct (State v =? Failed); reflexivity.
Qed.

Lemma plain_output_has_no_escape_witness :
  let w := world_of (Done 0%nat (world_of (Add "b" (world_of (Add "a" (New Box1 false)))))) in
  written true w = [line "✔" "a"; line "-" "b"] /\
  Forall (fun s => no_esc s = true) (written true w).
Proof.
  assert (wf (world_of (Done 0%nat
            (world_of (Add "b" (world_of (Add "a" (New Box1 false)))))))) as Hwf.
  { unfold wf. simpl. repeat constructor; by eexists. }
  destruct (plain_output_has_no_escape true _ Hwf ltac:(vm_compute; reflexivity)
              ltac:(repeat constructor)) as [_ H].
  split; [vm_compute; reflexivity | exact H].
Defined.

(** ** Marks compose *)

Lemma mark_of_eq (failed : bool) (a : addr) (c : Config) (v : Worker) :
  crashed c = false -> heap (world c) !! a = Some v -> parent v = true ->
  step (mark_of failed a) c =
  Some (mkConfig (marked (if failed then Failed else Completed) a v (world c))
                 (mainPc c) (waiterPc c) (wg (world c) - 1 <? 0)).
Proof.
  intros Hlive Hv Hp. unfold step. rewrite Hlive.
  destruct failed; cbn [mark_of]; [rewrite Fail_eq | rewrite Done_eq];
    rewrite Hv, Hp; destruct (wg (world c) - 1 <? 0); reflexivity.
Qed.

(** X10: two workers may finish in either order.  For two different handles
    that [Add] returned, a mark on one followed by a mark on the other leads
    to the same configuration as the two marks the other way round (the same
    states, the same counter, and a panic in the one case exactly when in the
    other). *)
Theorem marks_on_different_workers_commute
    (f1 f2 : bool) (a b : addr) (va vb : Worker) (c : Config) :
  a <> b ->
  heap (world c) !! a = Some va -> parent va = true ->
  heap (world c) !! b = Some vb -> parent vb = true ->
  run [mark_of f1 a; mark_of f2 b] c = run [mark_of f2 b; mark_of f1 a] c.
Proof.
  intros Hne Ha Hpa Hb Hpb. cbn [run].
  destruct (crashed c) eqn:Hlive.
  { unfold step. rewrite Hlive. reflexivity. }
  rewrite (mark_of_eq f1 a c va Hlive Ha Hpa), (mark_of_eq f2 b c vb Hlive Hb Hpb).
  destruct (wg (world c) - 1 <? 0) eqn:Hneg.
  { unfold step. reflexivity. }
  rewrite (mark_of_eq f2 b _ vb);
    [|reflexivity
     |cbn [world marked heap set_wg set_heap];
      rewrite list_lookup_insert_ne by exact Hne; exact Hb
     |exact Hpb].
  rewrite (mark_of_eq f1 a _ va);
    [|reflexivity
     |cbn [world marked heap set_wg set_heap];
      rewrite list_lookup_insert_ne by congruence; exact Ha
     |exact Hpa].
  f_equal. unfold marked. cbn [world wg heap set_wg set_heap mainPc waiterPc].
  rewrite list_insert_insert_ne by congruence. reflexivity.
Qed.

Lemma marks_on_different_workers_commute_witness :
  exists c,
    run [AFail 0%nat; ADone 1%nat]
        (mkConfig (world_of (Add "b" (world_of (Add "a" (New Box1 true)))))
                  NotCalled NotSpawned false) = Some c /\
    run [ADone 1%nat; AFail 0%nat]
        (mkConfig (world_of (Add "b" (world_of (Add "a" (New Box1 true)))))
                  NotCalled NotSpawned false) = Some c /\
    wg (world c) = 0.
Proof.
  pose proof (marks_on_different_workers_commute true false 0%nat 1%nat
                (mkWorker Pending "a" true) (mkWorker Pending "b" true)
                (mkConfig (world_of (Add "b" (world_of (Add "a" (New Box1 true)))))
                          NotCalled NotSpawned false)
                ltac:(discriminate) ltac:(vm_compute; reflexivity) eq_refl
                ltac:(vm_compute; reflexivity) eq_refl) as H.
  cbn [mark_of] in H.
  eexists. split; [vm_compute; reflexivity|]. split; [|vm_compute; reflexivity].
  rewrite <- H. vm_compute. reflexivity.
Defined.

(** ** From [Add] to the mark *)

(** X11: [Add] returns a fresh handle and disturbs no earlier worker; the
    worker it makes is [Active]; a following [Done] or [Fail] on that handle
    returns, takes the counter back to what it was before the [Add], and
    leaves the worker inactive under its name, in the last place of the
    slice. *)
Theorem add_then_mark_restores_counter (failed : bool) (s : string) (w : World) :
  0 <= wg w ->
  exists a w1 w2,
    Add s w = Ok a w1 /\ a = length (heap w) /\ heap w !! a = None /\
    (forall b v, heap w !! b = Some v -> heap w1 !! b = Some v) /\
    (Active <$> heap w1 !! a) = Some true /\
    (if failed then Fail a w1 else Done a w1) = Ok tt w2 /\
    wg w2 = wg w /\
    heap w2 = heap w ++ [mkWorker (if failed then Failed else Completed) s true] /\
    Workers w2 = Workers w ++ [a] /\
    (Active <$> heap w2 !! a) = Some false.
Proof.
  intros Hwg. exists (length (heap w)), (added_to s w).
  assert (heap (added_to s w) !! length (heap w) = Some (mkWorker Pending s true)) as Hnew.
  { simpl. apply list_lookup_middle. reflexivity. }
  assert (<[length (heap w) := mkWorker (if failed then Failed else Completed) s true]>
            (heap w ++ [mkWorker Pending s true]) =
          heap w ++ [mkWorker (if failed then Failed else Completed) s true]) as Hins.
  { rewrite <- (Nat.add_0_r (length (heap w))) at 1. rewrite insert_app_r. reflexivity. }
  exists (marked (if failed then Failed else Completed) (length (heap w))
                 (mkWorker Pending s true) (added_to s w)).
  split. { rewrite Add_eq. destruct (wg w + 1 <? 0) eqn:Hneg; [|reflexivity].
           apply Z.ltb_lt in Hneg. lia. }
  split; [reflexivity|]. split; [apply lookup_ge_None_2; lia|].
  split. { intros b v Hv. simpl. rewrite lookup_app_l; [exact Hv|].
           eapply lookup_lt_Some; eauto. }
  split; [rewrite Hnew; reflexivity|].
  split. { destruct failed; [rewrite Fail_eq | rewrite Done_eq]; rewrite Hnew;
             cbn [parent added_to wg];
             (destruct (wg w + 1 - 1 <? 0) eqn:Hneg; [apply Z.ltb_lt in Hneg; lia|]);
             reflexivity. }
  unfold marked. cbn [wg heap Workers set_wg set_heap added_to Name parent].
  rewrite Hins. split; [lia|]. split; [reflexivity|]. split; [reflexivity|].
  rewrite list_lookup_middle by reflexivity. destruct failed; reflexivity.
Qed.

Lemma add_then_mark_restores_counter_witness :
  exists a w1 w2,
    Add "b" (world_of (Add "a" (New Box1 true))) = Ok a w1 /\
    Fail a w1 = Ok tt w2 /\ wg w2 = 1 /\
    heap w2 = [mkWorker Pending "a" true; mkWorker Failed "b" true].
Proof.
  destruct (add_then_mark_restores_counter true "b"
              (world_of (Add "a" (New Box1 true))) ltac:(vm_compute; discriminate))
    as (a & w1 & w2 & H1 & _ & _ & _ & _ & H2 & H3 & H4 & _).
  exists a, w1, w2. repeat split; auto.
Defined.

(** ** The copy without the terminal check *)

Lemma print_range_tty (b : bool) (vs : list addr) (f c p : string) (w : World) :
  print_range vs f c p (set_isTerminal b w) =
  match print_range vs f c p w with
  | Ok a w' => Ok a (set_isTerminal b w')
  | Panic w' => Panic (set_isTerminal b w')
  end.
Proof.
  revert w. induction vs as [|a vs IH]; intros w; [reflexivity|].
  cbn [print_range]. unfold bind at 1 3. unfold deref. cbn [heap set_isTerminal].
  destruct (heap w !! a) as [v|]; [|reflexivity].
  unfold bind at 1 2. unfold fmt_Print, modify.
  change (set_stdout (stdout (set_isTerminal b w) ++ [?s]) (set_isTerminal b w))
    with (set_isTerminal b (set_stdout (stdout w ++ [s]) w)).
  apply IH.
Qed.

Lemma nt_print_spec (end_ b : bool) (w : World) :
  wf w -> isTerminal w = true ->
  NoTerminalCheck.print end_ (set_isTerminal b w) =
  Ok tt (set_isTerminal b (repainted end_ w)).
Proof.
  intros Hwf Ht. unfold NoTerminalCheck.print.
  unfold bind at 1. unfold get. unfold bind at 1. unfold fmt_Print, modify.
  unfold bind at 1. unfold spinner_Next. unfold bind at 1. unfold get.
  unfold bind at 1.
  cbn [Workers stdout spinner set_isTerminal set_stdout set_spinner].
  match goal with
  | |- context [print_range ?vs ?f ?c ?p ?w'] =>
      change w' with (set_isTerminal b
        (set_spinner (mkSpinner (frames (spinner w)) (S (pos (spinner w))))
           (set_stdout (stdout w ++ [wipe (length (Workers w))]) w)))
  end.
  rewrite print_range_tty.
  rewrite print_range_ok by (simpl; exact Hwf).
  unfold repainted, repaint, task_lines, tasks, glyph_in, frame. rewrite Ht.
  unfold bind, fmt_Print, modify, get. simpl.
  destruct end_; simpl; f_equal; unfold set_isTerminal, set_stdout, set_spinner;
    simpl; f_equal; rewrite <- !app_assoc; simpl; reflexivity.
Qed.

Lemma Add_tty (b : bool) (s : string) (w : World) (m : MainPc) (t : WaiterPc) :
  after (Add s (set_isTerminal b w)) m t = with_tty b (after (Add s w) m t).
Proof. rewrite !Add_eq. simpl. destruct (wg w + 1 <? 0); reflexivity. Qed.

Lemma Done_tty (b : bool) (a : addr) (w : World) (m : MainPc) (t : WaiterPc) :
  after (Done a (set_isTerminal b w)) m t = with_tty b (after (Done a w) m t).
Proof.
  rewrite !Done_eq. simpl. destruct (heap w !! a) as [v|]; [|reflexivity].
  destruct (parent v); [|reflexivity]. destruct (wg w - 1 <? 0); reflexivity.
Qed.

Lemma Fail_tty (b : bool) (a : addr) (w : World) (m : MainPc) (t : WaiterPc) :
  after (Fail a (set_isTerminal b w)) m t = with_tty b (after (Fail a w) m t).
Proof.
  rewrite !Fail_eq. simpl. destruct (heap w !! a) as [v|]; [|reflexivity].
  destruct (parent v); [|reflexivity]. destruct (wg w - 1 <? 0); reflexivity.
Qed.

Lemma nt_step (b : bool) (a : Action) (c : Config) :
  Inv c -> mode_ok true c -> no_tty a = true ->
  NoTerminalCheck.step a (with_tty b c) = option_map (with_tty b) (step a c).
Proof.
  intros HI (Ht & _ & Hblk) Ha. pose proof (Inv_wf c HI) as Hwf.
  unfold NoTerminalCheck.step, step. cbn [with_tty crashed world mainPc waiterPc].
  destruct (crashed c) eqn:Hlive; [reflexivity|].
  destruct a; try discriminate; cbn [option_map].
  - f_equal. apply Add_tty.
  - f_equal. apply Done_tty.
  - f_equal. apply Fail_tty.
  - reflexivity.
  - destruct (mainPc c); try reflexivity. rewrite Ht. reflexivity.
  - destruct (waiterPc c); try reflexivity. cbn [wg set_isTerminal].
    destruct (wg (world c) =? 0); reflexivity.
  - destruct (mainPc c); try reflexivity. cbn [ctxDone set_isTerminal].
    destruct (ctxDone (world c)); [|reflexivity].
    rewrite nt_print_spec, print_spec by assumption. reflexivity.
  - destruct (mainPc c); try reflexivity.
    rewrite nt_print_spec, print_spec by assumption. reflexivity.
  - destruct (mainPc c) eqn:Hm; try reflexivity.
    + destruct (waiterPc c); try reflexivity.
      rewrite nt_print_spec, print_spec by assumption. reflexivity.
    + specialize (Hblk eq_refl). discriminate.
Qed.

Lemma no_tty_ok (b : bool) (a : Action) : no_tty a = true -> tty_ok b a = true.
Proof. destruct a; try reflexivity. discriminate. Qed.

Lemma nt_run (b : bool) (tr : list Action) (c : Config) :
  Inv c -> mode_ok true c -> forallb no_tty tr = true ->
  NoTerminalCheck.run tr (with_tty b c) = option_map (with_tty b) (run tr c).
Proof.
  revert c. induction tr as [|a tr IH]; intros c HI Hm Hall; [reflexivity|].
  simpl in Hall. apply andb_prop in Hall as [Ha Hall].
  cbn [NoTerminalCheck.run run]. rewrite (nt_step b a c HI Hm Ha).
  destruct (step a c) as [c1|] eqn:Hstep; [|reflexivity].
  cbn [option_map]. destruct (step_Inv a c c1 Hstep HI) as [HI1 _].
  apply IH; auto. eapply step_mode; eauto using no_tty_ok.
Qed.

(** X13: the copy of the package that does not ask whether standard output
    is a terminal behaves, schedule for schedule, as the main file does on a
    terminal: whatever standard output is attached to, and as long as the
    environment leaves it alone, a schedule runs in the copy exactly when it
    runs in the main file on a terminal, and reaches the same configuration
    (same tasks, counter, output, place in [Print]) but for what standard
    output is attached to.  So in the copy a cancelled context always wakes
    [Print], and the escape sequences are written off a terminal too. *)
Theorem copy_behaves_as_on_a_terminal
    (sp : Spinner) (tty : bool) (tr : list Action) :
  forallb no_tty tr = true ->
  NoTerminalCheck.run tr (start sp tty) =
  option_map (with_tty tty) (run tr (start sp true)).
Proof.
  intros Hall.
  change (start sp tty) with (with_tty tty (start sp true)).
  apply nt_run; [apply Inv_start | apply mode_start | exact Hall].
Qed.

Lemma copy_behaves_as_on_a_terminal_witness :
  exists c,
    NoTerminalCheck.run [AAdd "a"; APrint; ACancel; ASelCtx] (start Box1 false) = Some c /\
    mainPc c = Returned /\
    stdout (world c) = [wipe 1; line "⠋" "a"; hide_cursor; show_cursor].
Proof.
  eexists. split.
  { rewrite (copy_behaves_as_on_a_terminal Box1 false
               [AAdd "a"; APrint; ACancel; ASelCtx] ltac:(vm_compute; reflexivity)).
    vm_compute. reflexivity. }
  split; vm_compute; reflexivity.
Defined.

(** ** The example program *)

Module ExampleFacts.
Import Example.

Lemma main_orderly (tr : list Action) (i : nat) (called : bool) (done : list addr) :
  main_from i called done tr = true -> orderly_from i done tr = true.
Proof.
  revert i called done. induction tr as [|a tr IH]; intros i called done H; [reflexivity|].
  destruct a; simpl in *; repeat (apply andb_prop in H as [H ?]); eauto;
    rewrite H, H1; simpl; eauto.
Qed.

Lemma main_disciplined (tr : list Action) (i : nat) (called waited : bool)
      (done : list addr) :
  main_from i called done tr = true -> (waited = true -> called = true) ->
  disciplined_from done waited tr = true.
Proof.
  revert i called waited done.
  induction tr as [|a tr IH]; intros i called waited done H Hw; [reflexivity|].
  destruct a; simpl in *; repeat (apply andb_prop in H as [H ?]); eauto.
  - apply negb_true_iff in H. subst called.
    destruct waited; [specialize (Hw eq_refl); discriminate|]. simpl. eauto.
  - rewrite H1. simpl. eauto.
  - rewrite H1. simpl. eauto.
Qed.

Lemma main_names (tr : list Action) (i : nat) (called : bool) (done : list addr) :
  main_from i called done tr = true -> (i <= 10)%nat ->
  exists k, added tr = map task_name (seq i k) /\ (i + k <= 10)%nat /\
            (In APrint tr -> (i + k = 10)%nat).
Proof.
  revert i called done.
  induction tr as [|a tr IH]; intros i called done H Hi.
  - exists 0%nat. simpl. repeat split; [lia | contradiction].
  - assert (forall i' called' done',
              main_from i' called' done' tr = true -> i' = i -> a <> APrint ->
              (forall s, a <> AAdd s) ->
              exists k, added (a :: tr) = map task_name (seq i k) /\
                        (i + k <= 10)%nat /\ (In APrint (a :: tr) -> (i + k = 10)%nat))
      as Hsame.
    { intros i' called' done' H' -> Hnp Hna.
      destruct (IH _ _ _ H' Hi) as (k & Hk & Hle & Hp). exists k.
      split; [destruct a; simpl; auto; exfalso; eapply Hna; reflexivity|].
      split; [exact Hle|]. intros [Habs|Hin]; [congruence | auto]. }
    destruct a; simpl in H.
    + apply andb_prop in H as [H Hrest]. apply andb_prop in H as [H Heq].
      apply andb_prop in H as [_ Hlt].
      apply String.eqb_eq in Heq. apply Nat.ltb_lt in Hlt. subst s.
      destruct (IH _ _ _ Hrest ltac:(lia)) as (k & Hk & Hle & Hp).
      exists (S k). simpl. rewrite Hk. repeat split; [lia|].
      intros [Habs|Hin]; [discriminate|]. apply Hp in Hin. lia.
    + apply andb_prop in H as [_ Hrest]. eapply Hsame; eauto; discriminate.
    + apply andb_prop in H as [_ Hrest]. eapply Hsame; eauto; discriminate.
    + apply andb_prop in H as [_ Hrest]. eapply Hsame; eauto; discriminate.
    + eapply Hsame; eauto; discriminate.
    + apply andb_prop in H as [H Hrest]. apply andb_prop in H as [_ Heq].
      apply Nat.eqb_eq in Heq. subst i.
      destruct (IH _ _ _ Hrest Hi) as (k & Hk & Hle & Hp). exists k.
      simpl. repeat split; auto. intros _. lia.
    + apply andb_prop in H as [_ Hrest]. eapply Hsame; eauto; discriminate.
    + apply andb_prop in H as [_ Hrest]. eapply Hsame; eauto; discriminate.
    + apply andb_prop in H as [_ Hrest]. eapply Hsame; eauto; discriminate.
    + apply andb_prop in H as [_ Hrest]. eapply Hsame; eauto; discriminate.
Qed.

Lemma called_in_schedule (sp : Spinner) (tty : bool) (tr : list Action) (c : Config) :
  run tr (start sp tty) = Some c -> mainPc c <> NotCalled -> In APrint tr.
Proof.
  revert c. induction tr as [|a tr IH] using rev_ind; intros c Hrun Hn.
  - injection Hrun as <-. contradiction.
  - apply run_snoc in Hrun as (c1 & Hrun1 & Hstep). apply in_or_app.
    destruct (run_Inv tr _ c1 Hrun1 (Inv_start sp tty)) as [HI1 _].
    destruct (step_shape a c1 c Hstep HI1) as [_ Hsh].
    destruct a;
      [left|left|left|left|left|right; left; reflexivity|left|left|left|left];
      apply (IH c1 Hrun1).
    + subst c. exact Hn.
    + destruct Hsh as [_ (<- & _)]. exact Hn.
    + destruct Hsh as [_ (<- & _)]. exact Hn.
    + subst c. exact Hn.
    + subst c. exact Hn.
    + destruct Hsh as (_ & _ & ->). exact Hn.
    + destruct Hsh as (Hm & _). congruence.
    + destruct Hsh as (Hm & _). congruence.
    + destruct Hsh as ([Hm|Hm] & _); congruence.
Qed.

Lemma completion_all_terminal
      (sp : Spinner) (tty : bool) (tr : list Action) (c c' : Config) :
  run tr (start sp tty) = Some c -> disciplined tr = true ->
  step ARecvDone c = Some c' ->
  wg (world c) = 0 /\
  forall i v, heap (world c) !! i = Some v -> State v = Completed \/ State v = Failed.
Proof.
  intros Hrun Hd Hstep.
  destruct (run_Inv tr _ c Hrun (Inv_start sp tty)) as [HI _].
  destruct (step_shape _ _ _ Hstep HI) as [Hlive (_ & Hsend & _)].
  destruct (run_disciplined tr [] false _ c Hrun (Inv_start sp tty)
              (fun _ => Kept_start sp tty) Hd) as (done & waited & HK).
  destruct (HK Hlive) as [K1 K2 K3 K4 _].
  pose proof (K3 (K4 Hsend)) as Hz. split; [lia|].
  intros i v Hv. destruct (K1 i v Hv) as [_ Hst].
  destruct (existsb (Nat.eqb i) done); [exact Hst|].
  pose proof (pending_count_zero _ i v Hz Hv) as Hna.
  unfold Active in Hna. rewrite Hst in Hna. discriminate.
Qed.

(** X14: the example program never panics, whatever the sleeps, the random
    outcomes and the interrupts; once [Print] is entered the set holds the
    ten tasks [Task #0] to [Task #9] in that order; and when [Print] returns
    through the completion case, all ten goroutines have made their call and
    the final repaint paints each of the ten lines, in order, with the
    success or the failure glyph. *)
Theorem example_lists_ten_tasks
    (sp : Spinner) (tty : bool) (tr : list Action) (c : Config) :
  run tr (start sp tty) = Some c -> main_schedule tr = true ->
  crashed c = false /\
  (mainPc c <> NotCalled ->
   map Name (heap (world c)) = map task_name (seq 0 10)) /\
  (forall c', step ARecvDone c = Some c' ->
     marks tr = 10%nat /\ mainPc c' = Returned /\
     forall i, (i < 10)%nat ->
       exists v, heap (world c) !! i = Some v /\ Name v = task_name i /\
         (State v = Completed \/ State v = Failed) /\
         stdout (world c') !! line_index (world c) i =
           Some (line (glyph_in (world c) (State v)) (task_name i))).
Proof.
  intros Hrun Hmain. unfold main_schedule in Hmain.
  destruct (run_orderly tr 0 [] _ c Hrun (Inv_start sp tty) eq_refl
              (Kept_start_plain sp tty) eq_refl (main_orderly _ _ _ _ Hmain))
    as (Hlive & _).
  destruct (run_Inv tr _ c Hrun (Inv_start sp tty)) as [HI Hnames].
  simpl in Hnames.
  destruct (main_names tr 0 false [] Hmain ltac:(lia)) as (k & Hk & Hle & Hp).
  assert (mainPc c <> NotCalled ->
          map Name (heap (world c)) = map task_name (seq 0 10)) as Hten.
  { intros Hn. apply (called_in_schedule sp tty tr c Hrun), Hp in Hn.
    simpl in Hn. subst k. congruence. }
  split; [exact Hlive|]. split; [exact Hten|].
  intros c' Hstep.
  destruct (step_shape _ _ _ Hstep HI) as [_ (Hm & _ & ->)].
  assert (mainPc c <> NotCalled) as Hn by (destruct Hm; congruence).
  specialize (Hten Hn).
  destruct (completion_all_terminal sp tty tr c _ Hrun
              (main_disciplined tr 0 false false [] Hmain (fun H => H)) Hstep)
    as [Hz Hall].
  pose proof (live_counter sp tty tr c Hrun Hlive) as Hc.
  assert (length (added tr) = 10%nat) as Hlen.
  { rewrite <- Hnames, Hten, length_map, length_seq. reflexivity. }
  split; [lia|]. split; [reflexivity|].
  intros i Hi.
  assert (i < length (heap (world c)))%nat as Hlt.
  { rewrite <- (length_map Name), Hten, length_map, length_seq. exact Hi. }
  destruct (lookup_lt_is_Some_2 _ _ Hlt) as [v Hv].
  assert (Name v = task_name i) as Hname.
  { pose proof (f_equal (fun l => l !! i) Hten) as He. cbv beta in He.
    change (map Name) with (fmap (M:=list) Name) in He.
    change (map task_name) with (fmap (M:=list) task_name) in He.
    rewrite !list_lookup_fmap, Hv, lookup_seq_lt in He by exact Hi.
    simpl in He. congruence. }
  exists v. split; [exact Hv|]. split; [exact Hname|]. split; [eauto|].
  cbn [world]. rewrite <- Hname.
  rewrite <- (print_line_at true (world c) i i v (Inv_wf c HI)); auto.
  - rewrite print_spec by (apply Inv_wf; exact HI). reflexivity.
  - rewrite (inv_slice c HI). apply lookup_seq. lia.
Qed.

Lemma example_lists_ten_tasks_witness :
  exists c,
    run (map (fun i => AAdd (task_name i)) (seq 0 10) ++
         [AFail 3%nat; APrint; ASelTick] ++
         map ADone [0; 1; 2; 4; 5; 6; 7; 8; 9]%nat ++ [ASelTick; AWait; ARecvDone])
        (start Box1 true) = Some c /\
    crashed c = false /\ mainPc c = Returned /\
    map Name (heap (world c)) = map task_name (seq 0 10).
Proof.
  eexists. split; [vm_compute; reflexivity|].
  destruct (example_lists_ten_tasks Box1 true
     (map (fun i => AAdd (task_name i)) (seq 0 10) ++
      [AFail 3%nat; APrint; ASelTick] ++
      map ADone [0; 1; 2; 4; 5; 6; 7; 8; 9]%nat ++ [ASelTick; AWait; ARecvDone]) _
     ltac:(vm_compute; reflexivity) ltac:(vm_compute; reflexivity))
    as (H1 & H2 & _).
  split; [exact H1|]. split; [vm_compute; reflexivity|].
  apply H2. vm_compute. discriminate.
Defined.

End ExampleFacts.
